(** * newspaper_project: the feed helpers and the auth routes of [app.py]

    A shallow embedding of [src/app.py] and the properties its
    specification states about it.

    Python values are the ones [json.loads] builds (numbers at their
    integer values), dictionaries are finite maps, exceptions are an
    explicit [Raise] result, and everything the handlers get from outside
    (the random generator, the news provider, standard output) is threaded
    through a [world]. *)

From Stdlib Require Import ZArith Ascii String.
From stdpp Require Import gmap strings list fin_maps.

Set Warnings "-register-all".

Open Scope string_scope.
Open Scope list_scope.
Open Scope stdpp_scope.
Open Scope Z_scope.

(** ** Python values *)

Inductive pyval :=
| PyNone
| PyBool (b : bool)
| PyInt (n : Z)
| PyStr (s : string)
| PyList (l : list pyval)
| PyDict (d : gmap string pyval).

(** Exceptions.  Every one of them is a subclass of [Exception], which is
    what [except Exception] catches; [HTTPException] is what [abort] and a
    missing form field raise. *)
Inductive exn :=
| AttributeError
| TypeError
| ValueError
| RequestException (msg : string)
| HTTPException (code : Z).

Inductive result (A : Type) :=
| Ok (a : A)
| Raise (e : exn).
Arguments Ok {A} a.
Arguments Raise {A} e.

#[global] Instance result_ret : MRet result := λ A a, Ok a.
#[global] Instance result_bind : MBind result := λ A B f m,
  match m with
  | Ok a => f a
  | Raise e => Raise e
  end.

(** [bool(v)] *)
Definition truthy (v : pyval) : bool :=
  match v with
  | PyNone => false
  | PyBool b => b
  | PyInt n => negb (n =? 0)
  | PyStr s => negb (String.eqb s "")
  | PyList l => negb (Nat.eqb (length l) 0)
  | PyDict d => negb (Nat.eqb (size d) 0)
  end.

(** [a or b] *)
Definition py_or (a b : pyval) : pyval := if truthy a then a else b.

(** [o.get(k, dflt)]: only a dict has the method. *)
Definition py_get (o : pyval) (k : string) (dflt : pyval) : result pyval :=
  match o with
  | PyDict d => Ok (default dflt (d !! k))
  | _ => Raise AttributeError
  end.

(** [v == s] for a string literal [s]: no value of another type equals a
    [str]. *)
Definition py_eq_str (v : pyval) (s : string) : bool :=
  match v with
  | PyStr s' => String.eqb s' s
  | _ => false
  end.

Fixpoint chars (s : string) : list pyval :=
  match s with
  | EmptyString => []
  | String c r => PyStr (String c EmptyString) :: chars r
  end.

(** The elements a [for] loop visits.  A dict yields its keys (here in the
    map's own order, not insertion order), a string its characters. *)
Definition py_iter (v : pyval) : result (list pyval) :=
  match v with
  | PyList l => Ok l
  | PyStr s => Ok (chars s)
  | PyDict d => Ok (PyStr <$> (map_to_list d).*1)
  | PyNone | PyBool _ | PyInt _ => Raise TypeError
  end.

(** What a [set] compares its members by: [True == 1], and lists and dicts
    are unhashable. *)
Inductive hkey :=
| HNone
| HNum (n : Z)
| HStr (s : string).

#[global] Instance hkey_eq_dec : EqDecision hkey.
Proof. solve_decision. Defined.

#[global] Instance hkey_countable : Countable hkey.
Proof.
  refine (inj_countable'
    (λ k, match k with
          | HNone => inl ()
          | HNum n => inr (inl n)
          | HStr s => inr (inr s)
          end)
    (λ x, match x with
          | inl _ => HNone
          | inr (inl n) => HNum n
          | inr (inr s) => HStr s
          end) _).
  by intros [].
Defined.

Definition py_hash (v : pyval) : result hkey :=
  match v with
  | PyNone => Ok HNone
  | PyBool b => Ok (HNum (if b then 1 else 0))
  | PyInt n => Ok (HNum n)
  | PyStr s => Ok (HStr s)
  | PyList _ | PyDict _ => Raise TypeError
  end.

(** ** The article sanitizer *)

(** The body of the [for] loop of [_safe_articles], with the two locals
    [seen] and [cleaned]. *)
Fixpoint safe_loop (items : list pyval) (seen : gset hkey) (cleaned : list pyval)
  : result (list pyval) :=
  match items with
  | [] => Ok cleaned
  | a :: rest =>
      url ← py_get a "url" PyNone;
      title ← py_get a "title" PyNone;
      if negb (truthy url) || negb (truthy title) then safe_loop rest seen cleaned
      else
        k ← py_hash url;
        if bool_decide (k ∈ seen) then safe_loop rest seen cleaned
        else safe_loop rest (seen ∪ {[k]}) (cleaned ++ [a])
  end.

Definition _safe_articles (items : pyval) : result (list pyval) :=
  l ← py_iter (py_or items (PyList []));
  safe_loop l ∅ [].

(** ** The outside world *)

(** [requests.get] returns a response whose [.json()] either parses the
    body or raises. *)
Record http_response := { json : result pyval }.

(** The random generator is an arbitrary stream of draws, the provider an
    arbitrary stream of answers to the requests made of it; [stdout] is
    what [print] has written. *)
Record world := World {
  rand : nat → nat;
  wire : nat → string → list (string * pyval) → Z → result http_response;
  stdout : list (string * exn)
}.

Definition behead {A} (f : nat → A) : nat → A := λ k, f (S k).

Definition M (A : Type) : Type := world → result A * world.

#[global] Instance M_ret : MRet M := λ A a w, (Ok a, w).
#[global] Instance M_bind : MBind M := λ A B f m w,
  match m w with
  | (Ok a, w') => f a w'
  | (Raise e, w') => (Raise e, w')
  end.

Definition lift {A} (r : result A) : M A := λ w, (r, w).

(** [try: body / except Exception as e: handler] *)
Definition try_except {A} (body : M A) (handler : exn → M A) : M A := λ w,
  match body w with
  | (Ok a, w') => (Ok a, w')
  | (Raise e, w') => handler e w'
  end.

Definition print (msg : string) (e : exn) : M () := λ w,
  (Ok (), World (rand w) (wire w) (stdout w ++ [(msg, e)])).

Definition requests_get (url : string) (params : list (string * pyval)) (timeout : Z)
  : M http_response := λ w,
  (wire w 0%nat url params timeout, World (rand w) (behead (wire w)) (stdout w)).

(** [random._randbelow(n)], for [0 < n] *)
Definition randbelow (n : nat) : M nat := λ w,
  (Ok (rand w 0 `mod` n)%nat, World (behead (rand w)) (wire w) (stdout w)).

(** [random.randint(a, b)] is [a + _randbelow(b - a + 1)] *)
Definition randint (a b : Z) : M Z :=
  if 0 <? b - a + 1 then
    j ← randbelow (Z.to_nat (b - a + 1));
    mret (a + Z.of_nat j)
  else lift (Raise ValueError).

(** [x[i], x[j] = x[j], x[i]] *)
Definition swap {A} (x : list A) (i j : nat) : list A :=
  match x !! i, x !! j with
  | Some xi, Some xj => <[j := xi]> (<[i := xj]> x)
  | _, _ => x
  end.

(** [random.shuffle]:
    [for i in reversed(range(1, len(x))): j = randbelow(i + 1); swap] *)
Fixpoint shuffle_loop {A} (i : nat) (x : list A) : M (list A) :=
  match i with
  | O => mret x
  | S i' =>
      j ← randbelow (S i);
      shuffle_loop i' (swap x i j)
  end.

Definition shuffle {A} (x : list A) : M (list A) :=
  shuffle_loop (length x - 1) x.

(** [l[:limit]], a negative [limit] counting from the end *)
Definition slice_to {A} (l : list A) (limit : Z) : list A :=
  if limit <? 0 then take (Z.to_nat (Z.of_nat (length l) + limit)) l
  else take (Z.to_nat limit) l.

(** ** The feed merger *)

Definition merge_shuffle_limit (list_of_lists : list (list pyval)) (limit : Z)
  : M (list pyval) :=
  let merged := foldl (λ merged lst, merged ++ lst) [] list_of_lists in
  merged ← shuffle merged;
  mret (slice_to merged limit).

(** ** [str] methods *)

(** A Python [str] is taken in its UTF-8 encoding.  The application calls
    two methods whose result depends on the Unicode tables, [str.strip]
    and [str.lower]; the routes are written over any pair of functions
    standing for them, and the statements that bind a [StrMethods] hold
    for Python's own. *)
Class StrMethods := {
  str_strip : string → string;
  str_lower : string → string
}.

(** The two methods on ASCII text, where they can be written out: they
    are the instance of the examples and of every statement that does not
    bind another. *)

(** [str.isspace] on the ASCII range: tab to carriage return, the four
    separators 28 to 31, and the space. *)
Definition is_space (c : ascii) : bool :=
  let n := nat_of_ascii c in
  ((9 <=? n) && (n <=? 13) || (28 <=? n) && (n <=? 32))%nat.

Fixpoint lstrip (s : string) : string :=
  match s with
  | EmptyString => EmptyString
  | String c r => if is_space c then lstrip r else s
  end.

Fixpoint rstrip (s : string) : string :=
  match s with
  | EmptyString => EmptyString
  | String c r =>
      match rstrip r with
      | EmptyString => if is_space c then EmptyString else String c EmptyString
      | r' => String c r'
      end
  end.

Definition strip (s : string) : string := rstrip (lstrip s).

Definition lower_char (c : ascii) : ascii :=
  let n := nat_of_ascii c in
  if ((65 <=? n) && (n <=? 90))%nat then ascii_of_nat (n + 32) else c.

Fixpoint lower (s : string) : string :=
  match s with
  | EmptyString => EmptyString
  | String c r => String (lower_char c) (lower r)
  end.

(** [s.split(sep)] for a one-character separator *)
Fixpoint split (sep : ascii) (s : string) : list string :=
  match s with
  | EmptyString => [EmptyString]
  | String c r =>
      if Ascii.eqb c sep then EmptyString :: split sep r
      else match split sep r with
           | h :: t => String c h :: t
           | [] => [String c EmptyString]
           end
  end.

(** ** Models, session, requests and responses *)

Record User := mkUser {
  id : Z;
  name : string;
  email : string;
  password_hash : string;
  interests : string
}.

(** The Flask session, with the two keys the application writes. *)
Record session := mkSession {
  s_user_id : option Z;
  s_email : option string
}.

Inductive http_method := GET | POST.

Record request := mkRequest {
  method : http_method;
  form : gmap string string
}.

Inductive response :=
| Redirect (endpoint : string)
| Text (body : string)
| RenderTemplate (template : string)
| RenderIndex (articles : list pyval) (user : option User) (personalized : bool)
              (topics : list string)
| RenderUsers (users : list User)
| RenderCount (count : nat).

(** [request.form[k]]: a missing field is a 400. *)
Definition form_item (req : request) (k : string) : result string :=
  match form req !! k with
  | Some v => Ok v
  | None => Raise (HTTPException 400)
  end.

(** [db.session.get(User, i)] *)
Definition db_get (users : list User) (i : Z) : option User :=
  find (λ u, id u =? i) users.

(** The row id SQLite gives the next inserted row. *)
Definition next_id (users : list User) : Z :=
  foldr (λ u m, Z.max (id u) m) 0 users + 1.

Definition TOP_NEWS_URL : string := "https://newsapi.org/v2/top-headlines".
Definition SEARCH_URL : string := "https://newsapi.org/v2/everything".

Section app.
(** [NEWS_API_KEY] may be unset; [ADMIN_EMAIL] has a default.
    [sha256_hexdigest pw] stands for
    [hashlib.sha256(pw.encode()).hexdigest()], and [str_strip], [str_lower]
    for [str.strip] and [str.lower]. *)
Variable API_KEY : option string.
Variable ADMIN_EMAIL : string.
Variable sha256_hexdigest : string → string.
Context `{SM : StrMethods}.

Definition hash_password (pw : string) : string := sha256_hexdigest pw.

Definition api_key_value : pyval := from_option PyStr PyNone API_KEY.

(** The [params] dict of each adapter, in the order it is written. *)
Definition top_headlines_params (country : string) (page_size page : Z)
  : list (string * pyval) :=
  [("apiKey", api_key_value); ("country", PyStr country);
   ("pageSize", PyInt page_size); ("page", PyInt page)].

(** In the [try] block of the two adapters [Some l] is a [return l] inside
    the block and [None] is falling out of it, to the final [return []]. *)
Definition fetch_top_headlines (country : string) (page_size page : Z)
  : M (list pyval) :=
  if negb (truthy api_key_value) then mret []
  else
    let params := top_headlines_params country page_size page in
    returned ← try_except
      (r ← requests_get TOP_NEWS_URL params 15;
       data ← lift (json r);
       status ← lift (py_get data "status" PyNone);
       if py_eq_str status "ok" then
         articles ← lift (py_get data "articles" (PyList []));
         cleaned ← lift (_safe_articles articles);
         mret (Some cleaned)
       else mret None)
      (λ e, print "Top headlines error:" e;; mret None);
    match returned with
    | Some l => mret l
    | None => mret []
    end.

Definition search_params (topic : string) (page_size page : Z)
  : list (string * pyval) :=
  [("apiKey", api_key_value); ("q", PyStr topic);
   ("language", PyStr "en"); ("sortBy", PyStr "publishedAt");
   ("pageSize", PyInt page_size); ("page", PyInt page)].

Definition fetch_news_for_topic (topic : string) (page_size page : Z)
  : M (list pyval) :=
  if negb (truthy api_key_value) then mret []
  else
    let params := search_params topic page_size page in
    returned ← try_except
      (r ← requests_get SEARCH_URL params 15;
       data ← lift (json r);
       status ← lift (py_get data "status" PyNone);
       if py_eq_str status "ok" then
         articles ← lift (py_get data "articles" (PyList []));
         cleaned ← lift (_safe_articles articles);
         mret (Some cleaned)
       else mret None)
      (λ e, print ("Search error for '" +:+ topic +:+ "':") e;; mret None);
    match returned with
    | Some l => mret l
    | None => mret []
    end.

(** The [for t in used_topics] loop of [home]. *)
Fixpoint topic_loop (used_topics : list string) (topic_feeds : list (list pyval))
  : M (list (list pyval)) :=
  match used_topics with
  | [] => mret topic_feeds
  | t :: rest =>
      page ← randint 1 3;
      feed ← fetch_news_for_topic t 10 page;
      topic_loop rest (topic_feeds ++ [feed])
  end.

Definition non_empty (s : string) : bool := negb (String.eqb s "").

(** [[t.strip() for t in interests.split(",") if t.strip()]] *)
Definition interest_topics (interests : string) : list string :=
  str_strip <$> List.filter (λ t, non_empty (str_strip t)) (split "," interests).

Definition home (s : session) (users : list User) : M response :=
  let user :=
    match s_user_id s with
    | Some i => db_get users i
    | None => None
    end in
  match user with
  | Some u =>
      if non_empty (interests u) then
        let topics := interest_topics (interests u) in
        let topics :=
          match topics with
          | [] => ["technology"; "science"; "sports"]
          | _ => topics
          end in
        let used_topics := take 5 topics in
        topic_feeds ← topic_loop used_topics [];
        articles ← merge_shuffle_limit topic_feeds 18;
        mret (RenderIndex articles user true used_topics)
      else
        page ← randint 1 3;
        articles ← fetch_top_headlines "us" 12 page;
        mret (RenderIndex articles user false [])
  | None =>
      page ← randint 1 3;
      articles ← fetch_top_headlines "us" 12 page;
      mret (RenderIndex articles user false [])
  end.

(** [register] reads the store and may add a row to it. *)
Definition register (req : request) (users : list User)
  : result response * list User :=
  match method req with
  | POST =>
      let fields :=
        nm ← form_item req "name";
        em ← form_item req "email";
        pw ← form_item req "password";
        mret (str_strip nm, str_lower (str_strip em), hash_password pw) in
      match fields with
      | Raise e => (Raise e, users)
      | Ok (nm, em, pw) =>
          let ints := str_strip (default "" (form req !! "interests")) in
          match find (λ u, String.eqb (email u) em) users with
          | Some _ => (Ok (Text "Email already registered. Try logging in."), users)
          | None =>
              let new_user := mkUser (next_id users) nm em pw ints in
              (Ok (Redirect "login"), users ++ [new_user])
          end
      end
  | GET => (Ok (RenderTemplate "register.html"), users)
  end.

(** [login] reads the store and may write the session. *)
Definition login (req : request) (users : list User) (s : session)
  : result response * session :=
  match method req with
  | POST =>
      let fields :=
        em ← form_item req "email";
        pw ← form_item req "password";
        mret (str_lower (str_strip em), hash_password pw) in
      match fields with
      | Raise e => (Raise e, s)
      | Ok (em, pw) =>
          match find (λ u, String.eqb (email u) em
                           && String.eqb (password_hash u) pw) users with
          | Some user =>
              (Ok (Redirect "home"),
               mkSession (Some (id user)) (Some (email user)))
          | None => (Ok (Text "Invalid credentials"), s)
          end
      end
  | GET => (Ok (RenderTemplate "login.html"), s)
  end.

Definition logout (s : session) : result response * session :=
  (Ok (Redirect "home"), mkSession None None).

(** [if session.get("email") != ADMIN_EMAIL: abort(403)] *)
Definition admin_required (s : session) : result () :=
  if negb (py_eq_str (from_option PyStr PyNone (s_email s)) ADMIN_EMAIL)
  then Raise (HTTPException 403)
  else Ok ().

Definition show_users (s : session) (users : list User) : result response :=
  admin_required s;;
  mret (RenderUsers users).

Definition user_count (s : session) (users : list User) : result response :=
  admin_required s;;
  mret (RenderCount (length users)).
End app.

#[global] Instance ascii_str : StrMethods := {|
  str_strip := strip;
  str_lower := lower
|}.

(** ** The activity recorder *)

Record Activity := mkActivity {
  activity_id : Z;
  user_id : Z;
  article_title : string;
  time : Z
}.

Definition next_activity_id (activities : list Activity) : Z :=
  foldr (λ a m, Z.max (activity_id a) m) 0 activities + 1.

(** [article(title)]: [utcnow] is what the column default
    [datetime.datetime.utcnow] reads when the row is inserted. *)
Definition article (s : session) (title : string) (utcnow : Z)
  (activities : list Activity) : result response * list Activity :=
  match s_user_id s with
  | None => (Ok (Redirect "login"), activities)
  | Some uid =>
      (Ok (Text ("<h1>" +:+ title
                 +:+ "</h1><p>Open source link from the card to read full story.</p>")),
       activities ++ [mkActivity (next_activity_id activities) uid title utcnow])
  end.

(** * Properties *)

(** ** Vocabulary of the statements *)

Definition art (url title : pyval) : pyval :=
  PyDict (<["url" := url]> (<["title" := title]> ∅)).

(** [a.get("url")] and [a.get("title")] as plain values. *)
Definition url_of (a : pyval) : pyval :=
  match a with
  | PyDict d => default PyNone (d !! "url")
  | _ => PyNone
  end.

Definition title_of (a : pyval) : pyval :=
  match a with
  | PyDict d => default PyNone (d !! "title")
  | _ => PyNone
  end.

Definition str_or_none (v : pyval) : bool :=
  match v with
  | PyNone | PyStr _ => true
  | _ => false
  end.

(** An article-like record: a dict whose URL and title are each missing,
    null or a string. *)
Definition article_like (a : pyval) : bool :=
  match a with
  | PyDict _ => str_or_none (url_of a) && str_or_none (title_of a)
  | _ => false
  end.

Definition has_url_and_title (a : pyval) : bool :=
  truthy (url_of a) && truthy (title_of a).

(** The member of [seen] a record is kept under, if the loop can keep it. *)
Definition article_key (a : pyval) : option hkey :=
  match a with
  | PyDict _ =>
      if has_url_and_title a then
        match py_hash (url_of a) with
        | Ok k => Some k
        | Raise _ => None
        end
      else None
  | _ => None
  end.

(** The ways a provider call fails: [requests.get] raises, the body is
    not JSON, the JSON is not an object, its status is not ["ok"], or its
    articles are not something the sanitizer can walk. *)
Inductive provider_failure : result http_response → Prop :=
| transport_error e :
    provider_failure (Raise e)
| malformed_body r e :
    json r = Raise e → provider_failure (Ok r)
| not_an_object r data :
    json r = Ok data → (∀ d, data ≠ PyDict d) → provider_failure (Ok r)
| status_not_ok r d :
    json r = Ok (PyDict d) → d !! "status" ≠ Some (PyStr "ok") →
    provider_failure (Ok r)
| malformed_articles r d e :
    json r = Ok (PyDict d) →
    _safe_articles (default (PyList []) (d !! "articles")) = Raise e →
    provider_failure (Ok r).

(** A response with status ["ok"] and the given articles value. *)
Definition ok_response (articles : pyval) : http_response :=
  {| json := Ok (PyDict (<["status" := PyStr "ok"]> (<["articles" := articles]> ∅))) |}.

(** The user stores that registration builds, starting from the empty
    table. *)
Inductive registered `{SM : StrMethods} (sha256_hexdigest : string → string)
  : list User → Prop :=
| registered_nil : registered sha256_hexdigest []
| registered_step users req :
    registered sha256_hexdigest users →
    registered sha256_hexdigest (register sha256_hexdigest req users).2.

Definition login_form (e p : string) : request :=
  mkRequest POST (<["email" := e]> (<["password" := p]> ∅)).

Definition register_form (n e p : string) : request :=
  mkRequest POST (<["name" := n]> (<["email" := e]> (<["password" := p]> ∅))).

(** Sample data for the examples. *)
Definition sample_items : list pyval :=
  [art (PyStr "u") (PyStr "t"); art PyNone (PyStr "t");
   art (PyStr "u") (PyStr "t2"); art (PyStr "v") (PyStr "")].

Definition tech_feed : list pyval :=
  [art (PyStr "t1") (PyStr "a"); art (PyStr "t2") (PyStr "b");
   art (PyStr "t3") (PyStr "c")].

Definition sports_feed : list pyval :=
  [art (PyStr "s1") (PyStr "d"); art (PyStr "s2") (PyStr "e");
   art (PyStr "s3") (PyStr "f")].

(** A provider answer with one record that has no URL. *)
Definition untitled_articles : list pyval := [art PyNone (PyStr "t")].

(** A world whose provider always answers with [r]. *)
Definition world_answering (r : result http_response) : world :=
  World (λ k, k) (λ _ _ _ _, r) [].

Definition toy_hash (pw : string) : string := "h:" +:+ pw.

(** The store after one registration, and a user with interests that
    hold no topic. *)
Definition one_user : list User :=
  (register toy_hash (register_form "Ann" " Ann@X.com" "pw") []).2.

Definition anonymous : session := mkSession None None.


(** The part the two adapters have in common, once the API key is there:
    the request, the [try] block around it, and the final [return []]. *)
Definition adapter_call (url : string) (params : list (string * pyval))
  (msg : string) : M (list pyval) :=
  returned ← try_except
    (r ← requests_get url params 15;
     data ← lift (json r);
     status ← lift (py_get data "status" PyNone);
     if py_eq_str status "ok" then
       articles ← lift (py_get data "articles" (PyList []));
       cleaned ← lift (_safe_articles articles);
       mret (Some cleaned)
     else mret None)
    (λ e, print msg e;; mret None);
  match returned with
  | Some l => mret l
  | None => mret []
  end.

(** A record the sanitizer loop gets past: a dict whose URL, when it has
    both a URL and a title, can be put in a set. *)
Definition walkable (a : pyval) : bool :=
  match a with
  | PyDict _ =>
      if has_url_and_title a then
        match py_hash (url_of a) with
        | Ok _ => true
        | Raise _ => false
        end
      else true
  | _ => false
  end.

(** The exception the loop raises at a record it does not get past. *)
Definition stumble (a : pyval) : exn :=
  match a with
  | PyDict _ => TypeError
  | _ => AttributeError
  end.

(** The first record of a list that the loop does not get past. *)
Definition first_unwalkable (items : list pyval) : option pyval :=
  find (λ a, negb (walkable a)) items.

Fixpoint all_chars (P : ascii → bool) (s : string) : bool :=
  match s with
  | EmptyString => true
  | String c r => P c && all_chars P r
  end.

Definition first_char (s : string) : option ascii :=
  match s with
  | EmptyString => None
  | String c _ => Some c
  end.

Fixpoint last_char (s : string) : option ascii :=
  match s with
  | EmptyString => None
  | String c EmptyString => Some c
  | String _ r => last_char r
  end.

(** Registration requests served one after the other. *)
Definition register_all `{SM : StrMethods} (sha256_hexdigest : string → string)
  (reqs : list request) (users : list User) : list User :=
  foldl (λ users req, (register sha256_hexdigest req users).2) users reqs.

(** Article views served one after the other: the session, the title and
    the clock reading of each. *)
Definition view_all (views : list (session * string * Z))
  (activities : list Activity) : list Activity :=
  foldl (λ activities v, (article v.1.1 v.1.2 v.2 activities).2) activities views.

Definition logged_in (s : session) : bool := bool_decide (is_Some (s_user_id s)).

(** A world whose provider answers every request with [r], whatever the
    generator does. *)
Definition always_answers (r : result http_response) (w : world) : Prop :=
  ∀ i url params timeout, wire w i url params timeout = r.

(** The exception, if any, that the [try] block of an adapter ends in,
    given the provider's answer. *)
Definition raised_in_try (answer : result http_response) : option exn :=
  match answer with
  | Raise e => Some e
  | Ok r =>
      match json r with
      | Raise e => Some e
      | Ok (PyDict d) =>
          if py_eq_str (default PyNone (d !! "status")) "ok" then
            match _safe_articles (default (PyList []) (d !! "articles")) with
            | Raise e => Some e
            | Ok _ => None
            end
          else None
      | Ok _ => Some AttributeError
      end
  end.

(** What [print] adds to standard output for that exception. *)
Definition logged (msg : string) (answer : result http_response)
  : list (string * exn) :=
  match raised_in_try answer with
  | Some e => [(msg, e)]
  | None => []
  end.

(** A topic as [home] makes them: not empty, nothing to strip, no comma. *)
Definition clean_topic (t : string) : Prop :=
  t ≠ "" ∧ strip t = t ∧ all_chars (λ c, negb (Ascii.eqb c ",")) t = true.

(** The user [home] finds for a session, and the topics it queries for a
    user with interests. *)
Definition session_user (s : session) (users : list User) : option User :=
  s_user_id s ≫= db_get users.

Definition used_topics_of `{SM : StrMethods} (u : User) : list string :=
  take 5 (match interest_topics (interests u) with
          | [] => ["technology"; "science"; "sports"]
          | topics => topics
          end).

Definition has_interests (o : option User) : bool :=
  match o with
  | Some u => non_empty (interests u)
  | None => false
  end.

(** How many requests one call of [home] makes. *)
Definition requests_made `{SM : StrMethods} (key : option string)
  (o : option User) : nat :=
  if truthy (api_key_value key) then
    match o with
    | Some u => if non_empty (interests u) then length (used_topics_of u) else 1
    | None => 1
    end
  else 0.

(** Closes [NoDup] goals over lists of distinct literals. *)
Ltac nodup_literals :=
  repeat (apply NoDup_cons_2;
          [rewrite ?elem_of_cons, elem_of_nil; intuition discriminate|]);
  apply NoDup_nil_2.

(** ** The sanitizer *)

Example safe_ex1 :
  _safe_articles (PyList [art (PyStr "u") (PyStr "t"); art PyNone (PyStr "t");
                          art (PyStr "u") (PyStr "t2"); art (PyStr "v") (PyStr "")])
  = Ok [art (PyStr "u") (PyStr "t")].
Proof. vm_compute. reflexivity. Qed.

(** A record without a title does not reserve its URL. *)
Example safe_ex2 :
  _safe_articles (PyList [art (PyStr "u") PyNone; art (PyStr "u") (PyStr "t")])
  = Ok [art (PyStr "u") (PyStr "t")].
Proof. vm_compute. reflexivity. Qed.

Example safe_ex3 :
  _safe_articles (PyList [art (PyList [PyInt 1]) (PyStr "t")]) = Raise TypeError
  ∧ _safe_articles (PyList [PyNone]) = Raise AttributeError
  ∧ _safe_articles (PyInt 3) = Raise TypeError
  ∧ _safe_articles PyNone = Ok [].
Proof. vm_compute. done. Qed.

Lemma safe_loop_dict d rest seen cleaned :
  safe_loop (PyDict d :: rest) seen cleaned =
    if has_url_and_title (PyDict d) then
      match py_hash (url_of (PyDict d)) with
      | Ok k =>
          if bool_decide (k ∈ seen) then safe_loop rest seen cleaned
          else safe_loop rest (seen ∪ {[k]}) (cleaned ++ [PyDict d])
      | Raise e => Raise e
      end
    else safe_loop rest seen cleaned.
Proof.
  unfold has_url_and_title. cbn [safe_loop py_get url_of title_of mbind result_bind].
  destruct (truthy (default PyNone (d !! "url"))),
           (truthy (default PyNone (d !! "title"))); cbn; try done.
Qed.

Lemma safe_loop_not_dict a rest seen cleaned res :
  safe_loop (a :: rest) seen cleaned = Ok res → ∃ d, a = PyDict d.
Proof. destruct a; cbn; try discriminate. eauto. Qed.

Lemma article_key_valid a k : article_key a = Some k → has_url_and_title a = true.
Proof.
  destruct a; cbn; try discriminate.
  by destruct (has_url_and_title (PyDict d)).
Qed.

(** What the loop does to [cleaned], whatever the records are: it appends
    a subsequence of the items, one record per key not yet seen, and the
    record it appends for a key is the first that carries it. *)
Lemma safe_loop_inv items : ∀ seen cleaned res,
  safe_loop items seen cleaned = Ok res →
  ∃ kept ks,
    res = cleaned ++ kept
    ∧ kept `sublist_of` items
    ∧ Forall2 (λ a k, article_key a = Some k) kept ks
    ∧ NoDup ks
    ∧ (∀ k, k ∈ ks → k ∉ seen)
    ∧ (∀ a k, a ∈ items → article_key a = Some k → k ∈ seen ∨ k ∈ ks)
    ∧ (∀ i a k, items !! i = Some a → article_key a = Some k → k ∉ seen →
         (∀ j b, (j < i)%nat → items !! j = Some b → article_key b ≠ Some k) →
         a ∈ kept).
Proof.
  induction items as [|a rest IH]; intros seen cleaned res Hrun.
  { cbn in Hrun. injection Hrun as <-. exists [], [].
    rewrite app_nil_r. split_and!; try done.
    - apply NoDup_nil_2.
    - intros k Hk. by apply elem_of_nil in Hk.
    - intros a k Ha. by apply elem_of_nil in Ha. }
  destruct (safe_loop_not_dict _ _ _ _ _ Hrun) as [d ->].
  rewrite safe_loop_dict in Hrun.
  destruct (has_url_and_title (PyDict d)) eqn:Hvalid.
  - destruct (py_hash (url_of (PyDict d))) as [k0|] eqn:Hhash; [|done].
    assert (article_key (PyDict d) = Some k0) as Hkey.
    { unfold article_key. by rewrite Hvalid, Hhash. }
    case_bool_decide as Hseen.
    + destruct (IH _ _ _ Hrun)
        as (kept & ks & -> & Hsub & Hks & Hnd & Hfresh & Hcov & Hfirst).
      exists kept, ks. split_and!; try done.
      * by apply sublist_cons.
      * intros a k [->|Ha]%elem_of_cons Hk; [|by eauto].
        left. congruence.
      * intros [|i] a k Hi Hk Hnew Hearlier.
        { injection Hi as <-. congruence. }
        apply (Hfirst i a k); try done.
        intros j b Hj. apply (Hearlier (S j)). lia.
    + destruct (IH _ _ _ Hrun)
        as (kept & ks & -> & Hsub & Hks & Hnd & Hfresh & Hcov & Hfirst).
      exists (PyDict d :: kept), (k0 :: ks). split_and!.
      * by rewrite <-app_assoc.
      * by apply sublist_skip.
      * by constructor.
      * apply NoDup_cons. split; [|done].
        intros Hin. apply Hfresh in Hin. set_solver.
      * intros k [->|Hk]%elem_of_cons; [done|].
        apply Hfresh in Hk. set_solver.
      * intros a k [->|Ha]%elem_of_cons Hk.
        { right. rewrite Hkey in Hk. injection Hk as <-. left. }
        destruct (Hcov a k Ha Hk) as [[?| ->%elem_of_singleton]%elem_of_union|?].
        -- by left.
        -- right. left.
        -- right. by right.
      * intros [|i] a k Hi Hk Hnew Hearlier.
        { injection Hi as <-. left. }
        right. apply (Hfirst i a k); try done.
        -- intros [?| ->%elem_of_singleton]%elem_of_union; [done|].
           apply (Hearlier 0%nat (PyDict d)); [lia|done|done].
        -- intros j b Hj. apply (Hearlier (S j)). lia.
  - destruct (IH _ _ _ Hrun)
      as (kept & ks & -> & Hsub & Hks & Hnd & Hfresh & Hcov & Hfirst).
    assert (article_key (PyDict d) = None) as Hkey.
    { unfold article_key. by rewrite Hvalid. }
    exists kept, ks. split_and!; try done.
    + by apply sublist_cons.
    + intros a k [->|Ha]%elem_of_cons Hk; [congruence|by eauto].
    + intros [|i] a k Hi Hk Hnew Hearlier.
      { injection Hi as <-. congruence. }
      apply (Hfirst i a k); try done.
      intros j b Hj. apply (Hearlier (S j)). lia.
Qed.

(** A list of records with pairwise different, unseen keys goes through the
    loop unchanged. *)
Lemma safe_loop_fixed kept ks : ∀ seen cleaned,
  Forall2 (λ a k, article_key a = Some k) kept ks →
  NoDup ks →
  (∀ k, k ∈ ks → k ∉ seen) →
  safe_loop kept seen cleaned = Ok (cleaned ++ kept).
Proof.
  intros seen cleaned Hks. revert seen cleaned.
  induction Hks as [|a k kept ks Hkey _ IH]; intros seen cleaned Hnd Hfresh.
  { cbn. by rewrite app_nil_r. }
  apply NoDup_cons in Hnd as [Hk Hnd].
  destruct a; try discriminate.
  rewrite safe_loop_dict. unfold article_key in Hkey.
  destruct (has_url_and_title (PyDict d)); [|done].
  destruct (py_hash (url_of (PyDict d))) as [k'|]; [|done].
  injection Hkey as ->.
  rewrite bool_decide_eq_false_2 by (apply Hfresh; left).
  rewrite IH, <-app_assoc; [done|done|].
  intros k' Hk' [?| ->%elem_of_singleton]%elem_of_union; [|done].
  apply (Hfresh k'); [by right|done].
Qed.

Lemma article_like_fields a :
  article_like a = true → has_url_and_title a = true →
  ∃ u t, url_of a = PyStr u ∧ u ≠ "" ∧ title_of a = PyStr t ∧ t ≠ ""
         ∧ article_key a = Some (HStr u).
Proof.
  destruct a as [| | | | |d]; try discriminate.
  unfold article_like, article_key.
  intros [Hu Ht]%andb_true_iff Hvalid. rewrite Hvalid.
  apply andb_true_iff in Hvalid as [Hu' Ht'].
  destruct (url_of (PyDict d)) as [| | |u| |]; try discriminate.
  destruct (title_of (PyDict d)) as [| | |t| |]; try discriminate.
  exists u, t. split_and!; try done.
  - intros ->. discriminate.
  - intros ->. discriminate.
Qed.

Lemma article_like_total items : ∀ seen cleaned,
  Forall (λ a, article_like a = true) items →
  ∃ res, safe_loop items seen cleaned = Ok res.
Proof.
  induction items as [|a rest IH]; intros seen cleaned Hlike.
  { by exists cleaned. }
  apply Forall_cons in Hlike as [Ha Hrest].
  destruct a as [| | | | |d]; try discriminate.
  rewrite safe_loop_dict.
  destruct (has_url_and_title (PyDict d)) eqn:Hvalid; [|by apply IH].
  destruct (article_like_fields _ Ha Hvalid) as (u & t & -> & _).
  cbn [py_hash]. case_bool_decide; by apply IH.
Qed.

Lemma kept_key_of kept ks b :
  Forall2 (λ a k, article_key a = Some k) kept ks →
  b ∈ kept → ∃ k, k ∈ ks ∧ article_key b = Some k.
Proof.
  intros Hks [i Hi]%list_elem_of_lookup.
  destruct (Forall2_lookup_l _ _ _ _ _ Hks Hi) as (k & Hk & Hkey).
  exists k. split; [|done]. apply list_elem_of_lookup. eauto.
Qed.

Lemma kept_record_of kept ks k :
  Forall2 (λ a k, article_key a = Some k) kept ks →
  k ∈ ks → ∃ b, b ∈ kept ∧ article_key b = Some k.
Proof.
  intros Hks [i Hi]%list_elem_of_lookup.
  destruct (Forall2_lookup_r _ _ _ _ _ Hks Hi) as (b & Hb & Hkey).
  exists b. split; [|done]. apply list_elem_of_lookup. eauto.
Qed.

Lemma kept_urls_NoDup kept ks :
  Forall2 (λ a k, article_key a = Some k) kept ks →
  Forall (λ a, article_like a = true) kept →
  NoDup ks → NoDup (url_of <$> kept).
Proof.
  induction 1 as [|a k kept ks Hkey Hks IH]; intros Hlike Hnd; cbn.
  { apply NoDup_nil_2. }
  apply Forall_cons in Hlike as [Ha Hlike].
  apply NoDup_cons in Hnd as [Hk Hnd].
  apply NoDup_cons. split; [|by apply IH].
  intros (b & Hurl & Hb)%list_elem_of_fmap.
  destruct (kept_key_of _ _ _ Hks Hb) as (kb & Hkb & Hbkey).
  destruct (article_like_fields a Ha (article_key_valid _ _ Hkey))
    as (u & _ & Hu & _ & _ & _ & Hau).
  assert (article_like b = true) as Hblike.
  { by eapply Forall_forall in Hlike. }
  destruct (article_like_fields b Hblike (article_key_valid _ _ Hbkey))
    as (u' & _ & Hu' & _ & _ & _ & Hbu).
  rewrite Hu, Hu' in Hurl. injection Hurl as ->.
  apply Hk. congruence.
Qed.

Lemma safe_articles_list l : _safe_articles (PyList l) = safe_loop l ∅ [].
Proof. unfold _safe_articles, py_or. by destruct l. Qed.

(** C1.  On every list of article-like records the sanitizer returns, and
    what it returns is a subsequence of the input, holds only records with
    a non-empty URL and a non-empty title, holds no URL twice, and holds,
    for each URL that a record with a title carries, the first such
    record. *)
Theorem safe_articles_spec (items : list pyval) :
  Forall (λ a, article_like a = true) items →
  ∃ out,
    _safe_articles (PyList items) = Ok out
    ∧ out `sublist_of` items
    ∧ Forall (λ a, ∃ u t, url_of a = PyStr u ∧ u ≠ ""
                          ∧ title_of a = PyStr t ∧ t ≠ "") out
    ∧ NoDup (url_of <$> out)
    ∧ (∀ i a, items !! i = Some a → has_url_and_title a = true →
         (∀ j b, (j < i)%nat → items !! j = Some b →
                 has_url_and_title b = true → url_of b ≠ url_of a) →
         a ∈ out)
    ∧ (∀ a, a ∈ items → has_url_and_title a = true →
         url_of a ∈ url_of <$> out).
Proof.
  intros Hlike. rewrite safe_articles_list.
  destruct (article_like_total items ∅ [] Hlike) as [out Hrun].
  exists out. split; [done|].
  destruct (safe_loop_inv _ _ _ _ Hrun)
    as (kept & ks & -> & Hsub & Hks & Hnd & _ & Hcov & Hfirst).
  cbn [app] in *.
  assert (Forall (λ a, article_like a = true) kept) as Hkept.
  { apply Forall_forall. intros a Ha.
    eapply Forall_forall in Hlike; [done|]. by eapply sublist_subseteq. }
  split_and!; try done.
  - apply Forall_forall. intros a Ha.
    destruct (kept_key_of _ _ _ Hks Ha) as (k & _ & Hkey).
    eapply Forall_forall in Hkept; [|done].
    destruct (article_like_fields a Hkept (article_key_valid _ _ Hkey))
      as (u & t & ? & ? & ? & ? & _).
    by exists u, t.
  - by eapply kept_urls_NoDup.
  - intros i a Hi Hvalid Hearlier.
    assert (article_like a = true) as Ha.
    { eapply Forall_forall in Hlike; [done|]. by eapply list_elem_of_lookup_2. }
    destruct (article_like_fields a Ha Hvalid) as (u & _ & Hu & _ & _ & _ & Hkey).
    apply (Hfirst i a (HStr u)); try done.
    intros j b Hj Hb Hbkey.
    assert (article_like b = true) as Hblike.
    { eapply Forall_forall in Hlike; [done|]. by eapply list_elem_of_lookup_2. }
    destruct (article_like_fields b Hblike (article_key_valid _ _ Hbkey))
      as (u' & _ & Hu' & _ & _ & _ & Hbkey').
    apply (Hearlier j b Hj Hb (article_key_valid _ _ Hbkey)).
    congruence.
  - intros a Ha Hvalid.
    assert (article_like a = true) as Halike.
    { by eapply Forall_forall in Hlike. }
    destruct (article_like_fields a Halike Hvalid) as (u & _ & Hu & _ & _ & _ & Hkey).
    destruct (Hcov a _ Ha Hkey) as [?|Hin]; [done|].
    destruct (kept_record_of _ _ _ Hks Hin) as (b & Hb & Hbkey).
    apply list_elem_of_fmap. exists b. split; [|done].
    assert (article_like b = true) as Hblike.
    { by eapply Forall_forall in Hkept. }
    destruct (article_like_fields b Hblike (article_key_valid _ _ Hbkey))
      as (u' & _ & Hu' & _ & _ & _ & Hbkey').
    congruence.
Qed.

Lemma clean_list_keys l :
  Forall (λ a, article_like a = true ∧ has_url_and_title a = true) l →
  NoDup (url_of <$> l) →
  ∃ ks, Forall2 (λ a k, article_key a = Some k) l ks ∧ NoDup ks.
Proof.
  induction l as [|a l IH]; intros Hclean Hnd.
  { exists []. split; [constructor|apply NoDup_nil_2]. }
  apply Forall_cons in Hclean as [[Ha Hvalid] Hclean].
  rewrite fmap_cons in Hnd. apply NoDup_cons in Hnd as [Hfresh Hnd].
  destruct (IH Hclean Hnd) as (ks & Hks & Hndks).
  destruct (article_like_fields a Ha Hvalid) as (u & _ & Hu & _ & _ & _ & Hkey).
  exists (HStr u :: ks). split; [by constructor|].
  apply NoDup_cons. split; [|done].
  intros Hin. destruct (kept_record_of _ _ _ Hks Hin) as (b & Hb & Hbkey).
  apply Hfresh, list_elem_of_fmap. exists b. split; [|done].
  eapply Forall_forall in Hclean as [Hblike Hbvalid]; [|done].
  destruct (article_like_fields b Hblike Hbvalid) as (u' & _ & Hu' & _ & _ & _ & Hbkey').
  congruence.
Qed.

Lemma safe_articles_again items out :
  _safe_articles items = Ok out → _safe_articles (PyList out) = Ok out.
Proof.
  intros Hrun. unfold _safe_articles in Hrun.
  destruct (py_iter (py_or items (PyList []))) as [l|]; [|done].
  cbn in Hrun.
  destruct (safe_loop_inv _ _ _ _ Hrun)
    as (kept & ks & -> & _ & Hks & Hnd & Hfresh & _).
  rewrite safe_articles_list. cbn [app].
  by rewrite (safe_loop_fixed kept ks).
Qed.

Lemma safe_articles_clean l :
  Forall (λ a, article_like a = true ∧ has_url_and_title a = true) l →
  NoDup (url_of <$> l) →
  _safe_articles (PyList l) = Ok l.
Proof.
  intros Hclean Hnd.
  destruct (clean_list_keys l Hclean Hnd) as (ks & Hks & Hndks).
  rewrite safe_articles_list. rewrite (safe_loop_fixed l ks); try done.
Qed.

(** C8.  The sanitizer is idempotent: whatever it returns, on any input,
    it returns unchanged when applied again; and a list of article-like
    records that all have a URL and a title, no URL twice, is returned
    unchanged. *)
Theorem safe_articles_idempotent :
  (∀ items out,
     _safe_articles items = Ok out → _safe_articles (PyList out) = Ok out)
  ∧ (∀ l,
       Forall (λ a, article_like a = true ∧ has_url_and_title a = true) l →
       NoDup (url_of <$> l) →
       _safe_articles (PyList l) = Ok l).
Proof. split; [apply safe_articles_again|apply safe_articles_clean]. Qed.

(** C1 at a sample input. *)
Lemma safe_articles_spec_witness :
  Forall (λ a, article_like a = true) sample_items
  ∧ ∃ out, _safe_articles (PyList sample_items) = Ok out
           ∧ out `sublist_of` sample_items
           ∧ NoDup (url_of <$> out).
Proof.
  assert (Forall (λ a, article_like a = true) sample_items) as Hlike.
  { repeat constructor. }
  split; [exact Hlike|].
  destruct (safe_articles_spec sample_items Hlike)
    as (out & Hrun & Hsub & _ & Hnd & _).
  exists out. auto.
Defined.

(** C8 at sample inputs. *)
Lemma safe_articles_idempotent_witness :
  _safe_articles (PyList [art (PyStr "u") (PyStr "t")])
    = Ok [art (PyStr "u") (PyStr "t")]
  ∧ _safe_articles (PyList tech_feed) = Ok tech_feed.
Proof.
  destruct safe_articles_idempotent as [Hidem Hclean]. split.
  - apply (Hidem (PyList sample_items)). vm_compute. reflexivity.
  - apply Hclean.
    + repeat constructor.
    + vm_compute. nodup_literals.
Defined.

(** ** The feed merger *)

Example shuffle_ex : (shuffle [1; 2; 3; 4; 5] (world_answering (Raise ValueError))).1
                     = Ok [5; 4; 3; 2; 1].
Proof. vm_compute. reflexivity. Qed.

Example slice_ex :
  slice_to [1; 2; 3] 2 = [1; 2] ∧ slice_to [1; 2; 3] 7 = [1; 2; 3]
  ∧ slice_to [1; 2; 3] (-1) = [1; 2] ∧ slice_to [1; 2; 3] (-5) = [].
Proof. vm_compute. done. Qed.

Lemma swap_Permutation {A} (x : list A) i j : swap x i j ≡ₚ x.
Proof.
  unfold swap.
  destruct (x !! i) as [xi|] eqn:Hi; [|done].
  destruct (x !! j) as [xj|] eqn:Hj; [|done].
  by apply Permutation_insert_swap.
Qed.

(** The shuffle always returns, with a permutation of its argument; it
    draws from the generator and touches nothing else. *)
Lemma shuffle_loop_run {A} i : ∀ (x : list A) w,
  ∃ y w', shuffle_loop i x w = (Ok y, w') ∧ y ≡ₚ x
          ∧ wire w' = wire w ∧ stdout w' = stdout w.
Proof.
  induction i as [|i IH]; intros x w.
  { exists x, w. by cbn. }
  cbn [shuffle_loop]. unfold mbind, M_bind, randbelow.
  destruct (IH (swap x (S i) (rand w 0 `mod` S (S i))%nat)
               (World (behead (rand w)) (wire w) (stdout w)))
    as (y & w' & -> & Hperm & Hwire & Hout).
  exists y, w'. split_and!; try done.
  by rewrite Hperm, swap_Permutation.
Qed.

Lemma shuffle_run {A} (x : list A) w :
  ∃ y w', shuffle x w = (Ok y, w') ∧ y ≡ₚ x
          ∧ wire w' = wire w ∧ stdout w' = stdout w.
Proof. apply shuffle_loop_run. Qed.

Lemma merged_concat {A} (lists : list (list A)) : ∀ acc,
  foldl (λ merged lst, merged ++ lst) acc lists = acc ++ concat lists.
Proof.
  induction lists as [|l lists IH]; intros acc; cbn.
  - by rewrite app_nil_r.
  - by rewrite IH, app_assoc.
Qed.

Lemma slice_to_sublist {A} (l : list A) limit : slice_to l limit `sublist_of` l.
Proof. unfold slice_to. destruct (limit <? 0); apply sublist_take. Qed.

Lemma slice_to_length {A} (l : list A) limit :
  0 ≤ limit → length (slice_to l limit) = (Z.to_nat limit `min` length l)%nat.
Proof.
  intros Hlimit. unfold slice_to.
  destruct (Z.ltb_spec limit 0); [lia|]. by rewrite length_take.
Qed.

Lemma slice_to_all {A} (l : list A) limit :
  Z.of_nat (length l) ≤ limit → slice_to l limit = l.
Proof.
  intros Hlimit. unfold slice_to.
  destruct (Z.ltb_spec limit 0); [lia|]. apply take_ge. lia.
Qed.

(** What every call of the merger returns, for any [limit]. *)
Lemma merge_shuffle_limit_run lists limit w :
  ∃ out shuffled w',
    merge_shuffle_limit lists limit w = (Ok out, w')
    ∧ shuffled ≡ₚ concat lists
    ∧ out = slice_to shuffled limit
    ∧ wire w' = wire w ∧ stdout w' = stdout w.
Proof.
  unfold merge_shuffle_limit. rewrite merged_concat. cbn [app].
  destruct (shuffle_run (concat lists) w) as (y & w' & Hrun & Hperm & Hwire & Hout).
  exists (slice_to y limit), y, w'.
  unfold mbind, M_bind. rewrite Hrun. by cbn.
Qed.

(** C2.  For a limit that is a count ([0 ≤ limit]) the merger returns at
    most [limit] elements and at most as many as it was given, each of them
    from one of the input lists; it is the first [limit] elements of a
    permutation of the concatenation, so when everything fits an element
    given twice is returned twice. *)
Theorem merge_shuffle_limit_spec (lists : list (list pyval)) (limit : Z) (w : world) :
  0 ≤ limit →
  ∃ out w',
    merge_shuffle_limit lists limit w = (Ok out, w')
    ∧ Z.of_nat (length out) ≤ limit
    ∧ (length out ≤ length (concat lists))%nat
    ∧ (∀ a, a ∈ out → ∃ lst, lst ∈ lists ∧ a ∈ lst)
    ∧ (∃ shuffled, shuffled ≡ₚ concat lists ∧ out = take (Z.to_nat limit) shuffled)
    ∧ (Z.of_nat (length (concat lists)) ≤ limit → out ≡ₚ concat lists)
    ∧ (∀ a, lists = [[a]; [a]] → 2 ≤ limit → out = [a; a]).
Proof.
  intros Hlimit.
  destruct (merge_shuffle_limit_run lists limit w)
    as (out & shuffled & w' & Hrun & Hperm & -> & _).
  exists (slice_to shuffled limit), w'.
  assert (∀ a, a ∈ slice_to shuffled limit → a ∈ concat lists) as Hin.
  { intros a Ha. rewrite <-Hperm. by eapply sublist_subseteq, Ha; apply slice_to_sublist. }
  assert (Z.of_nat (length (concat lists)) ≤ limit →
          slice_to shuffled limit ≡ₚ concat lists) as Hall.
  { intros Hfit. rewrite slice_to_all; [done|]. by rewrite Hperm. }
  split_and!; try done.
  - rewrite slice_to_length by done. lia.
  - rewrite <-Hperm. apply sublist_length, slice_to_sublist.
  - intros a Ha. apply Hin in Ha.
    apply list_elem_of_In, in_concat in Ha as (lst & ? & ?).
    exists lst. by rewrite !list_elem_of_In.
  - exists shuffled. split; [done|].
    unfold slice_to. by destruct (Z.ltb_spec limit 0); [lia|].
  - intros a -> Hfit.
    assert (slice_to shuffled limit ≡ₚ [a; a]) as Hp by (apply Hall; cbn; lia).
    apply Permutation_cons_inv_r in Hp as (k1 & k2 & Hk & Hp').
    apply Permutation_singleton_l in Hp'.
    rewrite Hk. destruct k1 as [|b [|]], k2 as [|c [|]]; simplify_eq/=; done.
Qed.

(** C2 at a sample input. *)
Lemma merge_shuffle_limit_spec_witness :
  0 ≤ 18
  ∧ ∃ out w',
      merge_shuffle_limit [tech_feed; sports_feed] 18
        (world_answering (Raise ValueError)) = (Ok out, w')
      ∧ Z.of_nat (length out) ≤ 18.
Proof.
  split; [lia|].
  destruct (merge_shuffle_limit_spec [tech_feed; sports_feed] 18
              (world_answering (Raise ValueError)) ltac:(lia))
    as (out & w' & Hrun & Hlen & _).
  exists out, w'. auto.
Defined.

(** C9.  Two topic lists of three articles each, the six URLs distinct:
    each list is sanitized to itself, three long, and merging the two with
    limit 18 returns six articles whose URLs are the six given, in some
    order. *)
Theorem two_topics_scenario (tech sports : list pyval) (w : world) :
  length tech = 3%nat →
  length sports = 3%nat →
  Forall (λ a, article_like a = true ∧ has_url_and_title a = true) (tech ++ sports) →
  NoDup (url_of <$> tech ++ sports) →
  ∃ s1 s2 out w',
    _safe_articles (PyList tech) = Ok s1 ∧ length s1 = 3%nat
    ∧ _safe_articles (PyList sports) = Ok s2 ∧ length s2 = 3%nat
    ∧ merge_shuffle_limit [s1; s2] 18 w = (Ok out, w')
    ∧ length out = 6%nat
    ∧ out ≡ₚ tech ++ sports
    ∧ url_of <$> out ≡ₚ url_of <$> tech ++ sports.
Proof.
  intros Htech Hsports [Hct Hcs]%Forall_app Hnd.
  rewrite fmap_app in Hnd. apply NoDup_app in Hnd as (Hnt & _ & Hns).
  destruct (merge_shuffle_limit_run [tech; sports] 18 w)
    as (out & shuffled & w' & Hrun & Hperm & -> & _).
  cbn [concat] in Hperm. rewrite app_nil_r in Hperm.
  assert (slice_to shuffled 18 = shuffled) as Hall.
  { apply slice_to_all. rewrite Hperm, length_app. lia. }
  rewrite Hall in Hrun.
  exists tech, sports, shuffled, w'. split_and!; try done.
  - by apply safe_articles_clean.
  - by apply safe_articles_clean.
  - rewrite Hperm, length_app. lia.
  - by rewrite Hperm.
Qed.

(** C9 at sample feeds. *)
Lemma two_topics_scenario_witness :
  ∃ out w',
    merge_shuffle_limit [tech_feed; sports_feed] 18
      (world_answering (Raise ValueError)) = (Ok out, w')
    ∧ length out = 6%nat
    ∧ url_of <$> out ≡ₚ url_of <$> tech_feed ++ sports_feed.
Proof.
  destruct (two_topics_scenario tech_feed sports_feed
              (world_answering (Raise ValueError)))
    as (s1 & s2 & out & w' & Hs1 & _ & Hs2 & _ & Hrun & Hlen & _ & Hurls).
  - reflexivity.
  - reflexivity.
  - repeat constructor.
  - vm_compute. nodup_literals.
  - assert (_safe_articles (PyList tech_feed) = Ok tech_feed) as E1
      by (vm_compute; reflexivity).
    assert (_safe_articles (PyList sports_feed) = Ok sports_feed) as E2
      by (vm_compute; reflexivity).
    rewrite E1 in Hs1. rewrite E2 in Hs2.
    injection Hs1 as <-. injection Hs2 as <-.
    exists out, w'. auto.
Defined.

(** ** The article source adapters *)

Lemma fetch_top_headlines_unfold key country page_size page :
  fetch_top_headlines key country page_size page =
    if negb (truthy (api_key_value key)) then mret []
    else adapter_call TOP_NEWS_URL (top_headlines_params key country page_size page)
           "Top headlines error:".
Proof. reflexivity. Qed.

Lemma fetch_news_for_topic_unfold key topic page_size page :
  fetch_news_for_topic key topic page_size page =
    if negb (truthy (api_key_value key)) then mret []
    else adapter_call SEARCH_URL (search_params key topic page_size page)
           ("Search error for '" +:+ topic +:+ "':").
Proof. reflexivity. Qed.

Lemma status_ok_iff (d : gmap string pyval) :
  py_eq_str (default PyNone (d !! "status")) "ok" = true
  ↔ d !! "status" = Some (PyStr "ok").
Proof.
  destruct (d !! "status") as [[| | |s| |]|]; cbn; try (split; congruence).
  rewrite String.eqb_eq. split; congruence.
Qed.

(** The call never raises: whatever the provider does, a list comes back,
    and only the generator-independent parts of the world move. *)
Lemma adapter_call_total url params msg w :
  ∃ l w', adapter_call url params msg w = (Ok l, w') ∧ rand w' = rand w.
Proof.
  unfold adapter_call, mbind, M_bind, try_except, requests_get, lift, print,
    mret, M_ret.
  cbn [rand].
  destruct (wire w 0%nat url params 15) as [r|e]; [|by eauto].
  destruct (json r) as [data|e]; [|by eauto].
  destruct data as [| | | | |d]; cbn [py_get]; try by eauto.
  destruct (py_eq_str (default PyNone (d !! "status")) "ok"); [|by eauto].
  destruct (_safe_articles (default (PyList []) (d !! "articles"))); by eauto.
Qed.

Lemma adapter_call_failure url params msg w :
  provider_failure (wire w 0%nat url params 15) →
  (adapter_call url params msg w).1 = Ok [].
Proof.
  unfold adapter_call, mbind, M_bind, try_except, requests_get, lift, print,
    mret, M_ret.
  intros Hfail. inversion Hfail as [e He|r e Hr He|r data Hr Hdata He
                                   |r d Hr Hstatus He|r d e Hr Harts He].
  - done.
  - by rewrite Hr.
  - rewrite Hr. destruct data; try done. by destruct (Hdata d).
  - rewrite Hr. cbn [py_get].
    destruct (py_eq_str (default PyNone (d !! "status")) "ok") eqn:Hok; [|done].
    by apply status_ok_iff in Hok.
  - rewrite Hr. cbn [py_get].
    destruct (py_eq_str (default PyNone (d !! "status")) "ok"); [|done].
    by rewrite Harts.
Qed.

Lemma adapter_call_ok url params msg w r d :
  wire w 0%nat url params 15 = Ok r →
  json r = Ok (PyDict d) →
  d !! "status" = Some (PyStr "ok") →
  (adapter_call url params msg w).1 =
    Ok (match _safe_articles (default (PyList []) (d !! "articles")) with
        | Ok cleaned => cleaned
        | Raise _ => []
        end).
Proof.
  unfold adapter_call, mbind, M_bind, try_except, requests_get, lift, print,
    mret, M_ret.
  intros -> -> Hstatus%status_ok_iff. cbn [py_get]. rewrite Hstatus.
  by destruct (_safe_articles (default (PyList []) (d !! "articles"))).
Qed.

(** C5.  Without an API key, and on every failure of the provider (a
    transport error or any other exception, a body that is not JSON or not
    an object, a status other than ["ok"], articles that cannot be walked)
    both adapters return the empty list; and in every world they return a
    list rather than raise. *)
Theorem adapters_fail_empty (key : option string) (w : world) :
  (∀ country page_size page,
     (key = None ∨ key = Some ""
      ∨ provider_failure
          (wire w 0%nat TOP_NEWS_URL
             (top_headlines_params key country page_size page) 15)) →
     (fetch_top_headlines key country page_size page w).1 = Ok [])
  ∧ (∀ topic page_size page,
     (key = None ∨ key = Some ""
      ∨ provider_failure
          (wire w 0%nat SEARCH_URL (search_params key topic page_size page) 15)) →
     (fetch_news_for_topic key topic page_size page w).1 = Ok [])
  ∧ (∀ country page_size page,
       ∃ l, (fetch_top_headlines key country page_size page w).1 = Ok l)
  ∧ (∀ topic page_size page,
       ∃ l, (fetch_news_for_topic key topic page_size page w).1 = Ok l).
Proof.
  split_and!.
  - intros country page_size page Hfail. rewrite fetch_top_headlines_unfold.
    destruct (truthy (api_key_value key)) eqn:Hkey; cbn [negb]; [|done].
    destruct Hfail as [->| [->|Hfail]]; [done|done|].
    by apply adapter_call_failure.
  - intros topic page_size page Hfail. rewrite fetch_news_for_topic_unfold.
    destruct (truthy (api_key_value key)) eqn:Hkey; cbn [negb]; [|done].
    destruct Hfail as [->| [->|Hfail]]; [done|done|].
    by apply adapter_call_failure.
  - intros country page_size page. rewrite fetch_top_headlines_unfold.
    destruct (truthy (api_key_value key)); cbn [negb]; [|by exists []].
    destruct (adapter_call_total TOP_NEWS_URL
                (top_headlines_params key country page_size page)
                "Top headlines error:" w) as (l & w' & -> & _).
    by exists l.
  - intros topic page_size page. rewrite fetch_news_for_topic_unfold.
    destruct (truthy (api_key_value key)); cbn [negb]; [|by exists []].
    destruct (adapter_call_total SEARCH_URL
                (search_params key topic page_size page)
                ("Search error for '" +:+ topic +:+ "':") w) as (l & w' & -> & _).
    by exists l.
Qed.

(** C5 at sample inputs: no key, and a transport error. *)
Lemma adapters_fail_empty_witness :
  (fetch_top_headlines None "us" 12 1 (world_answering (Ok (ok_response (PyList tech_feed))))).1
    = Ok []
  ∧ (fetch_news_for_topic (Some "k") "sports" 10 2
       (world_answering (Raise (RequestException "timeout")))).1 = Ok [].
Proof.
  split.
  - destruct (adapters_fail_empty None
                (world_answering (Ok (ok_response (PyList tech_feed)))))
      as (Htop & _).
    apply Htop. by left.
  - destruct (adapters_fail_empty (Some "k")
                (world_answering (Raise (RequestException "timeout"))))
      as (_ & Hsearch & _).
    apply Hsearch. right. right. apply transport_error.
Defined.

(** C6 as stated fails: on a response with status ["ok"] whose one record
    has no URL, both adapters return the empty list, not the provider's
    array. *)
Lemma adapters_not_verbatim :
  (fetch_top_headlines (Some "k") "us" 12 1
     (world_answering (Ok (ok_response (PyList untitled_articles))))).1 = Ok []
  ∧ (fetch_top_headlines (Some "k") "us" 12 1
       (world_answering (Ok (ok_response (PyList untitled_articles))))).1
    ≠ Ok untitled_articles
  ∧ (fetch_news_for_topic (Some "k") "sports" 10 1
       (world_answering (Ok (ok_response (PyList untitled_articles))))).1 = Ok []
  ∧ (fetch_news_for_topic (Some "k") "sports" 10 1
       (world_answering (Ok (ok_response (PyList untitled_articles))))).1
    ≠ Ok untitled_articles.
Proof.
  assert ((fetch_top_headlines (Some "k") "us" 12 1
     (world_answering (Ok (ok_response (PyList untitled_articles))))).1 = Ok [])
    as Htop by (by vm_compute).
  assert ((fetch_news_for_topic (Some "k") "sports" 10 1
     (world_answering (Ok (ok_response (PyList untitled_articles))))).1 = Ok [])
    as Hsearch by (by vm_compute).
  rewrite Htop, Hsearch. split_and!; done.
Qed.

(** C6, amended.  On a response with status ["ok"] both adapters return
    what the sanitizer makes of the provider's articles value (the empty
    list when the key is absent from the response). *)
Theorem adapters_return_sanitized (key : option string) (w : world)
    (r : http_response) (d : gmap string pyval) (cleaned : list pyval) :
  truthy (api_key_value key) = true →
  json r = Ok (PyDict d) →
  d !! "status" = Some (PyStr "ok") →
  _safe_articles (default (PyList []) (d !! "articles")) = Ok cleaned →
  (∀ country page_size page,
     wire w 0%nat TOP_NEWS_URL (top_headlines_params key country page_size page) 15
       = Ok r →
     (fetch_top_headlines key country page_size page w).1 = Ok cleaned)
  ∧ (∀ topic page_size page,
     wire w 0%nat SEARCH_URL (search_params key topic page_size page) 15 = Ok r →
     (fetch_news_for_topic key topic page_size page w).1 = Ok cleaned).
Proof.
  intros Hkey Hjson Hstatus Hclean. split.
  - intros country page_size page Hwire.
    rewrite fetch_top_headlines_unfold, Hkey. cbn [negb].
    by rewrite (adapter_call_ok _ _ _ _ r d), Hclean.
  - intros topic page_size page Hwire.
    rewrite fetch_news_for_topic_unfold, Hkey. cbn [negb].
    by rewrite (adapter_call_ok _ _ _ _ r d), Hclean.
Qed.

(** C6, amended, at a sample response. *)
Lemma adapters_return_sanitized_witness :
  (fetch_top_headlines (Some "k") "us" 12 1
     (world_answering (Ok (ok_response (PyList sample_items))))).1
  = Ok [art (PyStr "u") (PyStr "t")].
Proof.
  destruct (adapters_return_sanitized (Some "k")
              (world_answering (Ok (ok_response (PyList sample_items))))
              (ok_response (PyList sample_items))
              (<["status" := PyStr "ok"]> (<["articles" := PyList sample_items]> ∅))
              [art (PyStr "u") (PyStr "t")]) as (Htop & _).
  - reflexivity.
  - reflexivity.
  - reflexivity.
  - vm_compute. reflexivity.
  - apply Htop. reflexivity.
Defined.

(** ** Registration, login and the admin gate *)

Example normalize_ex :
  lower (strip "  Ann@Example.COM ") = "ann@example.com"
  ∧ strip "" = "" ∧ strip " " = "".
Proof. vm_compute. done. Qed.

Lemma find_elem_of {A} (f : A → bool) (l : list A) x :
  find f l = Some x → x ∈ l ∧ f x = true.
Proof. intros [? ?]%find_some. by rewrite list_elem_of_In. Qed.

Lemma find_is_Some {A} (f : A → bool) (l : list A) x :
  x ∈ l → f x = true → ∃ y, find f l = Some y.
Proof.
  intros Hx Hfx. destruct (find f l) as [y|] eqn:Hfind; [by eauto|].
  apply list_elem_of_In in Hx.
  pose proof (find_none f l Hfind x Hx). congruence.
Qed.

Lemma NoDup_fmap_eq {A B} (f : A → B) (l : list A) x y :
  NoDup (f <$> l) → x ∈ l → y ∈ l → f x = f y → x = y.
Proof.
  induction l as [|a l IH]; intros Hnd Hx Hy Hxy.
  { by apply elem_of_nil in Hx. }
  rewrite fmap_cons in Hnd. apply NoDup_cons in Hnd as [Ha Hnd].
  apply elem_of_cons in Hx as [->|Hx]; apply elem_of_cons in Hy as [->|Hy].
  - done.
  - destruct Ha. rewrite Hxy. by apply list_elem_of_fmap_2.
  - destruct Ha. rewrite <-Hxy. by apply list_elem_of_fmap_2.
  - by apply IH.
Qed.

(** What a registration POST with its three fields does. *)
Lemma register_post `{SM : StrMethods} sha req users n e p :
  method req = POST →
  form req !! "name" = Some n →
  form req !! "email" = Some e →
  form req !! "password" = Some p →
  register sha req users =
    match find (λ u, String.eqb (email u) (str_lower (str_strip e))) users with
    | Some _ => (Ok (Text "Email already registered. Try logging in."), users)
    | None =>
        (Ok (Redirect "login"),
         users ++ [mkUser (next_id users) (str_strip n) (str_lower (str_strip e))
                     (hash_password sha p)
                     (str_strip (default "" (form req !! "interests")))])
    end.
Proof.
  intros Hm Hn He Hp. unfold register, form_item.
  by rewrite Hm, Hn, He, Hp.
Qed.

(** Any call of [register] leaves the store alone or appends one row whose
    email no row had. *)
Lemma register_store `{SM : StrMethods} sha req users :
  (register sha req users).2 = users
  ∨ ∃ new, (register sha req users).2 = users ++ [new]
           ∧ email new ∉ email <$> users.
Proof.
  unfold register.
  destruct (method req); [by left|].
  unfold form_item.
  destruct (form req !! "name") as [n|]; [|by left].
  destruct (form req !! "email") as [e|]; [|by left].
  destruct (form req !! "password") as [p|]; [|by left].
  cbn.
  destruct (find _ users) as [u|] eqn:Hfind; [by left|].
  right. eexists. split; [done|]. cbn.
  intros (u & Hemail & Hu)%list_elem_of_fmap.
  apply list_elem_of_In in Hu.
  pose proof (find_none _ _ Hfind u Hu) as Hneq. cbn in Hneq.
  apply String.eqb_neq in Hneq. congruence.
Qed.

(** Email uniqueness holds in every store that registration builds. *)
Lemma registered_emails_NoDup `{SM : StrMethods} sha users :
  registered sha users → NoDup (email <$> users).
Proof.
  induction 1 as [|users req _ IH]; [apply NoDup_nil_2|].
  destruct (register_store sha req users) as [->|(new & -> & Hnew)]; [done|].
  rewrite fmap_app. apply NoDup_app. split_and!; [done| |].
  - intros x Hx [->|[]%elem_of_nil]%elem_of_cons. done.
  - cbn. apply NoDup_singleton.
Qed.

Lemma login_post `{SM : StrMethods} sha req users s e p :
  method req = POST →
  form req !! "email" = Some e →
  form req !! "password" = Some p →
  login sha req users s =
    match find (λ u, String.eqb (email u) (str_lower (str_strip e))
                     && String.eqb (password_hash u) (hash_password sha p)) users with
    | Some user =>
        (Ok (Redirect "home"), mkSession (Some (id user)) (Some (email user)))
    | None => (Ok (Text "Invalid credentials"), s)
    end.
Proof.
  intros Hm He Hp. unfold login, form_item.
  by rewrite Hm, He, Hp.
Qed.

Lemma credentials_match (u : User) (em h : string) :
  String.eqb (email u) em && String.eqb (password_hash u) h = true
  ↔ email u = em ∧ password_hash u = h.
Proof. by rewrite andb_true_iff, !String.eqb_eq. Qed.

(** C3.  A login submission succeeds exactly when some stored user has the
    normalized submitted email and the hash of the submitted password.  On
    success the session holds that user's id and email (and in a store
    built by registration no other user has that email); otherwise the
    answer is the invalid-credentials text and the session is as it was.
    The normalized email is [str.lower] of [str.strip] of the submitted
    one, whatever the two methods do to it. *)
Theorem login_spec `{SM : StrMethods} (sha : string → string) (req : request)
    (users : list User) (s : session) (e p : string) :
  method req = POST →
  form req !! "email" = Some e →
  form req !! "password" = Some p →
  ((login sha req users s).1 = Ok (Redirect "home")
   ↔ ∃ u, u ∈ users ∧ email u = str_lower (str_strip e)
          ∧ password_hash u = hash_password sha p)
  ∧ ((∃ u, u ∈ users ∧ email u = str_lower (str_strip e)
           ∧ password_hash u = hash_password sha p) →
     ∃ u, u ∈ users ∧ email u = str_lower (str_strip e)
          ∧ password_hash u = hash_password sha p
          ∧ login sha req users s
            = (Ok (Redirect "home"), mkSession (Some (id u)) (Some (email u)))
          ∧ (registered sha users →
             ∀ u', u' ∈ users → email u' = str_lower (str_strip e) → u' = u))
  ∧ (¬ (∃ u, u ∈ users ∧ email u = str_lower (str_strip e)
             ∧ password_hash u = hash_password sha p) →
     login sha req users s = (Ok (Text "Invalid credentials"), s)).
Proof.
  intros Hm He Hp. rewrite (login_post sha req users s e p Hm He Hp).
  destruct (find _ users) as [user|] eqn:Hfind.
  - apply find_elem_of in Hfind as [Huser [Hemail Hhash]%credentials_match].
    split_and!.
    + split; [|done]. intros _. by exists user.
    + intros _. exists user. split_and!; try done.
      intros Hreg u' Hu' Hemail'.
      apply (NoDup_fmap_eq email users); try done; [|congruence].
      by eapply registered_emails_NoDup.
    + intros []. by exists user.
  - assert (¬ ∃ u, u ∈ users ∧ email u = str_lower (str_strip e)
                   ∧ password_hash u = hash_password sha p) as Hnone.
    { intros (u & Hu & Hemail & Hhash).
      apply list_elem_of_In in Hu.
      pose proof (find_none _ _ Hfind u Hu) as Hno. cbn beta in Hno.
      by rewrite (proj2 (credentials_match u _ _) (conj Hemail Hhash)) in Hno. }
    split_and!; [|done|done].
    split; [discriminate|done].
Qed.

Lemma email_taken (users : list User) (em : string) :
  (∃ u, find (λ u, String.eqb (email u) em) users = Some u)
  ↔ ∃ u, u ∈ users ∧ email u = em.
Proof.
  split.
  - intros (u & [Hu Heq]%find_elem_of). apply String.eqb_eq in Heq. eauto.
  - intros (u & Hu & Hemail).
    apply (find_is_Some _ users u Hu). by apply String.eqb_eq.
Qed.

(** C4.  A registration submission adds a user exactly when no stored user
    has the normalized submitted email; when one has, the store is left as
    it was and the answer is a plain text, not a redirect.  Submitting an
    email with the same normal form once more is therefore rejected.  The
    normal form is [str.lower] of [str.strip] of the email, whatever the
    two methods do to it. *)
Theorem register_spec `{SM : StrMethods} (sha : string → string) (req : request)
    (users : list User) (n e p : string) :
  method req = POST →
  form req !! "name" = Some n →
  form req !! "email" = Some e →
  form req !! "password" = Some p →
  ((∃ new, (register sha req users).2 = users ++ [new])
   ↔ ¬ ∃ u, u ∈ users ∧ email u = str_lower (str_strip e))
  ∧ (¬ (∃ u, u ∈ users ∧ email u = str_lower (str_strip e)) →
     ∃ new, register sha req users = (Ok (Redirect "login"), users ++ [new])
            ∧ id new = next_id users
            ∧ name new = str_strip n
            ∧ email new = str_lower (str_strip e)
            ∧ password_hash new = hash_password sha p)
  ∧ ((∃ u, u ∈ users ∧ email u = str_lower (str_strip e)) →
     register sha req users
     = (Ok (Text "Email already registered. Try logging in."), users))
  ∧ (∀ req' n' e' p',
       method req' = POST →
       form req' !! "name" = Some n' →
       form req' !! "email" = Some e' →
       form req' !! "password" = Some p' →
       str_lower (str_strip e') = str_lower (str_strip e) →
       register sha req' (register sha req users).2
       = (Ok (Text "Email already registered. Try logging in."),
          (register sha req users).2)).
Proof.
  intros Hm Hn He Hp.
  assert (∀ users',
    (∃ u, u ∈ users' ∧ email u = str_lower (str_strip e)) →
    ∀ req' n' e' p',
      method req' = POST →
      form req' !! "name" = Some n' →
      form req' !! "email" = Some e' →
      form req' !! "password" = Some p' →
      str_lower (str_strip e') = str_lower (str_strip e) →
      register sha req' users'
      = (Ok (Text "Email already registered. Try logging in."), users'))
    as Hreject.
  { intros users' Htaken req' n' e' p' Hm' Hn' He' Hp' Hsame.
    rewrite (register_post sha req' users' n' e' p' Hm' Hn' He' Hp'), Hsame.
    apply email_taken in Htaken as [u ->]. done. }
  rewrite (register_post sha req users n e p Hm Hn He Hp).
  destruct (find _ users) as [u|] eqn:Hfind.
  - assert (∃ u, u ∈ users ∧ email u = str_lower (str_strip e)) as Htaken.
    { apply email_taken. eauto. }
    split_and!; try done.
    + split; [|done]. intros [new Hnew]. cbn in Hnew.
      apply (f_equal length) in Hnew. rewrite length_app in Hnew. cbn in Hnew. lia.
    + intros req' n' e' p'. by apply Hreject.
  - assert (¬ ∃ u, u ∈ users ∧ email u = str_lower (str_strip e)) as Hfree.
    { intros [u Hu]%email_taken. congruence. }
    split_and!; try done.
    + split; [done|]. intros _. by eexists.
    + intros _. by eexists.
    + intros req' n' e' p'. apply Hreject. cbn.
      eexists. split; [apply elem_of_app; right; apply list_elem_of_singleton; done|done].
Qed.

(** C7.  The admin gate lets a session through exactly when its stored
    email is the configured administrator email; every other session, the
    anonymous one included, gets a 403, and so do the two admin routes. *)
Theorem admin_required_spec (ADMIN_EMAIL : string) (s : session) :
  (admin_required ADMIN_EMAIL s = Ok () ↔ s_email s = Some ADMIN_EMAIL)
  ∧ (s_email s ≠ Some ADMIN_EMAIL →
     admin_required ADMIN_EMAIL s = Raise (HTTPException 403)
     ∧ ∀ users, show_users ADMIN_EMAIL s users = Raise (HTTPException 403)
                ∧ user_count ADMIN_EMAIL s users = Raise (HTTPException 403))
  ∧ admin_required ADMIN_EMAIL (mkSession None None) = Raise (HTTPException 403).
Proof.
  unfold show_users, user_count, admin_required.
  destruct (s_email s) as [e|]; cbn.
  - destruct (String.eqb_spec e ADMIN_EMAIL) as [->|Hne]; cbn.
    + split_and!; done.
    + split_and!; try done. split; [done|congruence].
  - split_and!; done.
Qed.

(** ** The home page *)

Example interest_topics_ex :
  interest_topics " tech , ai,,sports " = ["tech"; "ai"; "sports"]
  ∧ interest_topics ",, " = []
  ∧ interest_topics " " = [].
Proof. vm_compute. done. Qed.

Lemma randint_1_3_run w :
  randint 1 3 w
  = (Ok (1 + Z.of_nat (rand w 0 `mod` 3)%nat),
     World (behead (rand w)) (wire w) (stdout w)).
Proof. reflexivity. Qed.




(** ** The theorems at sample inputs *)

Example one_user_ex : one_user = [mkUser 1 "Ann" "ann@x.com" "h:pw" ""].
Proof. vm_compute. reflexivity. Qed.

(** C3 at a store with one registered user: the right password logs in,
    whatever the case of the email, and a wrong one does not. *)
Lemma login_spec_witness :
  (∃ u, u ∈ one_user
        ∧ login toy_hash (login_form "ANN@x.com " "pw") one_user anonymous
          = (Ok (Redirect "home"), mkSession (Some (id u)) (Some (email u))))
  ∧ login toy_hash (login_form "ann@x.com" "wrong") one_user anonymous
    = (Ok (Text "Invalid credentials"), anonymous).
Proof.
  split.
  - destruct (login_spec toy_hash (login_form "ANN@x.com " "pw") one_user anonymous
                "ANN@x.com " "pw" eq_refl eq_refl eq_refl) as (_ & Hsuccess & _).
    destruct Hsuccess as (u & Hu & _ & _ & Hrun & _).
    + exists (mkUser 1 "Ann" "ann@x.com" "h:pw" "").
      rewrite one_user_ex. split; [left|done].
    + by exists u.
  - destruct (login_spec toy_hash (login_form "ann@x.com" "wrong") one_user anonymous
                "ann@x.com" "wrong" eq_refl eq_refl eq_refl) as (_ & _ & Hfailure).
    apply Hfailure. rewrite one_user_ex.
    intros (u & ->%list_elem_of_singleton & _ & Hhash). discriminate.
Defined.

(** C4 at the empty store: the first registration is accepted, and the
    same email in another spelling is then rejected. *)
Lemma register_spec_witness :
  (∃ new, register toy_hash (register_form "Ann" " Ann@X.com" "pw") []
          = (Ok (Redirect "login"), [new]) ∧ email new = "ann@x.com")
  ∧ register toy_hash (register_form "Bob" "ANN@x.com" "pw2") one_user
    = (Ok (Text "Email already registered. Try logging in."), one_user).
Proof.
  destruct (register_spec toy_hash (register_form "Ann" " Ann@X.com" "pw") []
              "Ann" " Ann@X.com" "pw" eq_refl eq_refl eq_refl eq_refl)
    as (_ & Hnew & _ & Hagain).
  split.
  - destruct Hnew as (new & Hrun & _ & _ & Hemail & _).
    + intros (u & []%elem_of_nil & _).
    + exists new. split; [exact Hrun|exact Hemail].
  - apply (Hagain (register_form "Bob" "ANN@x.com" "pw2") "Bob" "ANN@x.com" "pw2");
      reflexivity.
Defined.

(** C7 at a logged-in user who is not the administrator. *)
Lemma admin_required_spec_witness :
  admin_required "admin@example.com" (mkSession (Some 1) (Some "ann@x.com"))
  = Raise (HTTPException 403).
Proof.
  destruct (admin_required_spec "admin@example.com"
              (mkSession (Some 1) (Some "ann@x.com"))) as (_ & Hrefused & _).
  apply Hrefused. discriminate.
Defined.


(** * Further properties of the code *)

(** ** The sanitizer on arbitrary values *)

Example safe_outcome_ex :
  _safe_articles (PyList [art (PyStr "u") (PyStr "t"); PyInt 3; PyNone])
    = Raise AttributeError
  ∧ _safe_articles (PyList [art (PyList []) (PyStr "t");
                            art (PyDict {["k" := PyNone]}) (PyStr "t")])
    = Raise TypeError
  ∧ _safe_articles (PyList [art (PyBool true) (PyStr "t"); art (PyInt 1) (PyStr "t")])
    = Ok [art (PyBool true) (PyStr "t")]
  ∧ _safe_articles (PyStr "abc") = Raise AttributeError
  ∧ _safe_articles (PyDict ∅) = Ok [].
Proof. vm_compute. done. Qed.

Lemma safe_loop_walkable d rest seen cleaned :
  walkable (PyDict d) = true →
  ∃ seen' cleaned',
    safe_loop (PyDict d :: rest) seen cleaned = safe_loop rest seen' cleaned'.
Proof.
  intros Hw. rewrite safe_loop_dict. unfold walkable in Hw.
  destruct (has_url_and_title (PyDict d)); [|by eauto].
  destruct (py_hash (url_of (PyDict d))); [|done].
  case_bool_decide; by eauto.
Qed.

Lemma safe_loop_unwalkable a rest seen cleaned :
  walkable a = false →
  safe_loop (a :: rest) seen cleaned = Raise (stumble a).
Proof.
  intros Hw. destruct a as [| | | | |d]; try done.
  rewrite safe_loop_dict. unfold walkable in Hw. cbn [stumble].
  destruct (has_url_and_title (PyDict d)); [|done].
  destruct (py_hash (url_of (PyDict d))) as [k|e] eqn:Hhash; [done|].
  destruct (url_of (PyDict d)); cbn in Hhash; congruence.
Qed.

Lemma safe_loop_outcome items : ∀ seen cleaned,
  match first_unwalkable items with
  | None => ∃ out, safe_loop items seen cleaned = Ok out
  | Some a => safe_loop items seen cleaned = Raise (stumble a)
  end.
Proof.
  unfold first_unwalkable.
  induction items as [|a rest IH]; intros seen cleaned; cbn [find].
  { by exists cleaned. }
  destruct (walkable a) eqn:Hw; cbn [negb].
  - destruct a as [| | | | |d]; try done.
    destruct (safe_loop_walkable d rest seen cleaned Hw) as (seen' & cleaned' & ->).
    apply IH.
  - by apply safe_loop_unwalkable.
Qed.

(** X1.  On a list the sanitizer returns exactly when every record is a
    dict whose URL, if it has a URL and a title, is hashable; otherwise it
    raises at the first record that is not: [AttributeError] for a value
    that is no dict, [TypeError] for a list or dict as URL. *)
Theorem safe_articles_outcome (items : list pyval) :
  match first_unwalkable items with
  | None => ∃ out, _safe_articles (PyList items) = Ok out
  | Some a => walkable a = false ∧ a ∈ items
              ∧ _safe_articles (PyList items) = Raise (stumble a)
  end.
Proof.
  rewrite safe_articles_list.
  pose proof (safe_loop_outcome items ∅ []) as Hout.
  destruct (first_unwalkable items) as [a|] eqn:Hfirst; [|done].
  apply find_elem_of in Hfirst as [Ha Hw].
  split_and!; try done. by apply negb_true_iff.
Qed.

Lemma chars_nonempty (s : string) :
  s ≠ "" → ∃ c rest, chars s = PyStr c :: rest.
Proof. destruct s; [done|]. cbn. eauto. Qed.

(** X2.  On a value that is not a list the sanitizer returns the empty
    list when the value is falsy ([None], [False], [0], [""], [{}]) and
    raises otherwise: walking a string or a dict reaches a [str], which has
    no [get]; a number or [True] cannot be walked at all. *)
Theorem safe_articles_not_list (v : pyval) :
  (∀ l, v ≠ PyList l) →
  _safe_articles v =
    if truthy v then
      Raise (match v with
             | PyStr _ | PyDict _ => AttributeError
             | _ => TypeError
             end)
    else Ok [].
Proof.
  intros Hv. unfold _safe_articles, py_or.
  destruct v as [|b|n|s|l|d]; cbn [truthy].
  - done.
  - by destruct b.
  - by destruct (n =? 0).
  - destruct (String.eqb_spec s "") as [->|Hs]; cbn [negb]; [done|].
    cbn [py_iter mbind result_bind].
    by destruct (chars_nonempty s Hs) as (c & rest & ->).
  - by destruct (Hv l).
  - destruct (Nat.eqb_spec (size d) 0) as [Hd|Hd]; cbn [negb]; [done|].
    cbn [py_iter mbind result_bind].
    destruct (map_to_list d) as [|[k x] rest] eqn:Hlist; [|done].
    apply map_to_list_empty_iff in Hlist as ->. by rewrite map_size_empty in Hd.
Qed.

(** The loop over a concatenation is the loop over the second part,
    started from where the loop over the first part ended. *)
Lemma safe_loop_app l1 : ∀ seen cleaned out1,
  safe_loop l1 seen cleaned = Ok out1 →
  ∃ seen', ∀ l2, safe_loop (l1 ++ l2) seen cleaned = safe_loop l2 seen' out1.
Proof.
  induction l1 as [|a l1 IH]; intros seen cleaned out1 Hrun.
  { cbn in Hrun. injection Hrun as <-. by exists seen. }
  destruct (safe_loop_not_dict _ _ _ _ _ Hrun) as [d ->].
  rewrite safe_loop_dict in Hrun.
  assert (∀ l2, safe_loop ((PyDict d :: l1) ++ l2) seen cleaned
                = safe_loop (PyDict d :: l1 ++ l2) seen cleaned) as Hcons by done.
  destruct (has_url_and_title (PyDict d)) eqn:Hvalid.
  - destruct (py_hash (url_of (PyDict d))) as [k|] eqn:Hhash; [|done].
    case_bool_decide as Hseen.
    + destruct (IH _ _ _ Hrun) as [seen' Happ]. exists seen'. intros l2.
      rewrite Hcons, safe_loop_dict, Hvalid, Hhash.
      by rewrite bool_decide_eq_true_2.
    + destruct (IH _ _ _ Hrun) as [seen' Happ]. exists seen'. intros l2.
      rewrite Hcons, safe_loop_dict, Hvalid, Hhash.
      by rewrite bool_decide_eq_false_2.
  - destruct (IH _ _ _ Hrun) as [seen' Happ]. exists seen'. intros l2.
    by rewrite Hcons, safe_loop_dict, Hvalid.
Qed.

(** X3.  Appending records to the input only appends to the output: what
    the sanitizer kept of a list is a prefix of what it keeps of any
    extension, the rest being records of the extension; and it raises on
    the extended list only at a record of the extension. *)
Theorem safe_articles_app (l1 l2 out1 : list pyval) :
  _safe_articles (PyList l1) = Ok out1 →
  match _safe_articles (PyList (l1 ++ l2)) with
  | Ok out => ∃ rest, out = out1 ++ rest ∧ rest `sublist_of` l2
  | Raise e => ∃ a, first_unwalkable l2 = Some a ∧ e = stumble a
  end.
Proof.
  rewrite !safe_articles_list. intros Hrun.
  destruct (safe_loop_app l1 ∅ [] out1 Hrun) as [seen' ->].
  pose proof (safe_loop_outcome l2 seen' out1) as Hout.
  destruct (safe_loop l2 seen' out1) as [out|e] eqn:Hrun2.
  - destruct (safe_loop_inv _ _ _ _ Hrun2) as (kept & ks & -> & Hsub & _).
    by exists kept.
  - destruct (first_unwalkable l2) as [a|]; [|by destruct Hout].
    exists a. split; [done|congruence].
Qed.

(** X3 at a sample input. *)
Lemma safe_articles_app_witness :
  ∃ rest, _safe_articles (PyList (tech_feed ++ sample_items)) = Ok (tech_feed ++ rest)
          ∧ rest `sublist_of` sample_items.
Proof.
  pose proof (safe_articles_app tech_feed sample_items tech_feed) as Happ.
  destruct (_safe_articles (PyList (tech_feed ++ sample_items))) as [out|e] eqn:Hrun.
  - destruct Happ as (rest & -> & Hsub); [by vm_compute|].
    by exists rest.
  - vm_compute in Hrun. discriminate.
Defined.

(** X2 at a string. *)
Lemma safe_articles_not_list_witness :
  _safe_articles (PyStr "abc") = Raise AttributeError.
Proof. apply (safe_articles_not_list (PyStr "abc")). discriminate. Defined.

(** ** The merger at any limit, and what it uses of the world *)

Lemma slice_to_length_any {A} (l : list A) (limit : Z) :
  Z.of_nat (length (slice_to l limit)) =
    if limit <? 0 then Z.max 0 (Z.of_nat (length l) + limit)
    else Z.min limit (Z.of_nat (length l)).
Proof.
  unfold slice_to. destruct (Z.ltb_spec limit 0); rewrite length_take; lia.
Qed.

(** X4.  For any integer limit the merger returns: with [0 ≤ limit] the
    output has [min limit total] elements, with a negative limit it has
    [total + limit] of them (none when that is negative), so the last
    [-limit] elements of the shuffled list are dropped rather than the
    list being cut to a length; in both cases no element is returned more
    often than it was given. *)
Theorem merge_shuffle_limit_any_limit (lists : list (list pyval)) (limit : Z)
    (w : world) :
  ∃ out w',
    merge_shuffle_limit lists limit w = (Ok out, w')
    ∧ Z.of_nat (length out) =
        (if limit <? 0 then Z.max 0 (Z.of_nat (length (concat lists)) + limit)
         else Z.min limit (Z.of_nat (length (concat lists))))
    ∧ out ⊆+ concat lists.
Proof.
  destruct (merge_shuffle_limit_run lists limit w)
    as (out & shuffled & w' & Hrun & Hperm & -> & _).
  exists (slice_to shuffled limit), w'. split_and!; [done| |].
  - by rewrite slice_to_length_any, (Permutation_length Hperm).
  - rewrite <-Hperm. apply sublist_submseteq, slice_to_sublist.
Qed.

Lemma shuffle_loop_world {A} i : ∀ (x : list A) w,
  (shuffle_loop i x w).2 = World (Nat.iter i behead (rand w)) (wire w) (stdout w).
Proof.
  induction i as [|i IH]; intros x w.
  { by destruct w. }
  cbn [shuffle_loop]. unfold mbind, M_bind, randbelow.
  rewrite Nat.iter_succ_r.
  specialize (IH (swap x (S i) (rand w 0 `mod` S (S i))%nat)
                 (World (behead (rand w)) (wire w) (stdout w))).
  by destruct (shuffle_loop i _ _) as [[y|e] w'].
Qed.

(** X5.  The merger makes no request and prints nothing; of the generator
    it takes one draw less than there are elements to shuffle, and none
    for an empty or one-element feed, which it returns as it is (cut to
    the limit). *)
Theorem merge_shuffle_limit_world (lists : list (list pyval)) (limit : Z)
    (w : world) :
  (merge_shuffle_limit lists limit w).2
    = World (Nat.iter (length (concat lists) - 1) behead (rand w)) (wire w) (stdout w)
  ∧ ((length (concat lists) ≤ 1)%nat →
     merge_shuffle_limit lists limit w = (Ok (slice_to (concat lists) limit), w)).
Proof.
  unfold merge_shuffle_limit. rewrite merged_concat. cbn [app].
  unfold mbind, M_bind, shuffle.
  pose proof (shuffle_loop_world (length (concat lists) - 1) (concat lists) w) as Hw.
  split.
  - destruct (shuffle_loop _ _ w) as [[y|e] w'] eqn:Hrun; by cbn in *.
  - intros Hshort.
    assert ((length (concat lists) - 1)%nat = 0%nat) as -> by lia.
    by cbn.
Qed.

(** X5 at the empty input. *)
Lemma merge_shuffle_limit_world_witness :
  merge_shuffle_limit [[]; []] 18 (world_answering (Raise ValueError))
  = (Ok [], world_answering (Raise ValueError)).
Proof.
  destruct (merge_shuffle_limit_world [[]; []] 18 (world_answering (Raise ValueError)))
    as [_ Hshort].
  apply Hshort. cbn. lia.
Defined.

(** ** [strip], [lower] and [split] *)

Lemma is_space_lower_char c : is_space (lower_char c) = is_space c.
Proof. by destruct c as [[] [] [] [] [] [] [] []]. Qed.

Lemma lower_char_idem c : lower_char (lower_char c) = lower_char c.
Proof. by destruct c as [[] [] [] [] [] [] [] []]. Qed.

Lemma lower_idem s : lower (lower s) = lower s.
Proof. induction s as [|c s IH]; cbn; [done|]. by rewrite lower_char_idem, IH. Qed.

Lemma lower_lstrip s : lower (lstrip s) = lstrip (lower s).
Proof.
  induction s as [|c s IH]; cbn; [done|].
  rewrite is_space_lower_char. by destruct (is_space c).
Qed.

Lemma lower_rstrip s : lower (rstrip s) = rstrip (lower s).
Proof.
  induction s as [|c s IH]; cbn; [done|].
  rewrite <-IH, is_space_lower_char.
  destruct (rstrip s); cbn; [|done]. by destruct (is_space c).
Qed.

Lemma lower_strip s : lower (strip s) = strip (lower s).
Proof. unfold strip. by rewrite lower_rstrip, lower_lstrip. Qed.

Lemma lstrip_first s c : first_char (lstrip s) = Some c → is_space c = false.
Proof.
  induction s as [|c' s IH]; cbn; [done|].
  destruct (is_space c') eqn:Hc'; [done|]. cbn. congruence.
Qed.

Lemma lstrip_id s :
  (∀ c, first_char s = Some c → is_space c = false) → lstrip s = s.
Proof. destruct s as [|c s]; cbn; [done|]. intros Hc. by rewrite Hc. Qed.

Lemma rstrip_first s c : first_char (rstrip s) = Some c → first_char s = Some c.
Proof.
  destruct s as [|c' s]; cbn; [done|].
  destruct (rstrip s); [|done]. by destruct (is_space c').
Qed.

Lemma rstrip_last s c : last_char (rstrip s) = Some c → is_space c = false.
Proof.
  induction s as [|c' s IH]; cbn [rstrip]; [done|].
  destruct (rstrip s) as [|c'' r] eqn:Hr.
  - destruct (is_space c') eqn:Hc'; cbn; [done|congruence].
  - cbn [last_char]. apply IH.
Qed.

Lemma rstrip_idem s : rstrip (rstrip s) = rstrip s.
Proof.
  induction s as [|c s IH]; cbn [rstrip]; [done|].
  destruct (rstrip s) as [|c' r] eqn:Hr.
  - destruct (is_space c) eqn:Hc; cbn; [done|]. by rewrite Hc.
  - cbn [rstrip]. cbn [rstrip] in IH. by rewrite IH.
Qed.

Lemma strip_idem s : strip (strip s) = strip s.
Proof.
  unfold strip. rewrite (lstrip_id (rstrip (lstrip s))).
  - apply rstrip_idem.
  - intros c Hc%rstrip_first. by eapply lstrip_first.
Qed.

(** The normal form of an email is its own normal form. *)
Lemma normalize_idem s : lower (strip (lower (strip s))) = lower (strip s).
Proof. by rewrite (lower_strip (lower (strip s))), lower_idem, <-lower_strip, strip_idem. Qed.

Lemma lstrip_empty_iff s : lstrip s = "" ↔ all_chars is_space s = true.
Proof.
  induction s as [|c s IH]; cbn; [done|].
  destruct (is_space c); cbn; [done|]. split; discriminate.
Qed.

Lemma rstrip_empty_iff s : rstrip s = "" ↔ all_chars is_space s = true.
Proof.
  induction s as [|c s IH]; cbn; [done|].
  destruct (rstrip s) as [|c' r].
  - destruct (is_space c); cbn.
    + split; [intros _|done]. by apply IH.
    + split; discriminate.
  - split; [discriminate|]. intros [_ Hs]%andb_true_iff.
    apply IH in Hs. discriminate.
Qed.

Lemma all_chars_lstrip P s : all_chars P s = true → all_chars P (lstrip s) = true.
Proof.
  induction s as [|c s IH]; cbn; [done|].
  intros [Hc Hs]%andb_true_iff. destruct (is_space c); [by apply IH|].
  cbn. by rewrite Hc, Hs.
Qed.

Lemma all_chars_rstrip P s : all_chars P s = true → all_chars P (rstrip s) = true.
Proof.
  induction s as [|c s IH]; cbn [rstrip all_chars]; [done|].
  intros [Hc Hs]%andb_true_iff. specialize (IH Hs).
  destruct (rstrip s) as [|c' r].
  - destruct (is_space c); cbn; [done|]. by rewrite Hc.
  - cbn [all_chars]. by rewrite Hc.
Qed.

Lemma strip_empty_iff s : strip s = "" ↔ all_chars is_space s = true.
Proof.
  unfold strip. rewrite rstrip_empty_iff. split.
  - intros Hs. apply lstrip_empty_iff.
    destruct (lstrip s) as [|c r] eqn:Hl; [done|].
    apply andb_true_iff in Hs as [Hc _].
    rewrite (lstrip_first s c) in Hc; [done|]. by rewrite Hl.
  - apply all_chars_lstrip.
Qed.

Lemma all_chars_strip P s : all_chars P s = true → all_chars P (strip s) = true.
Proof. intros Hs. by apply all_chars_rstrip, all_chars_lstrip. Qed.

Lemma split_no_sep sep s :
  Forall (λ t, all_chars (λ c, negb (Ascii.eqb c sep)) t = true) (split sep s).
Proof.
  induction s as [|c s IH]; cbn [split].
  { by repeat constructor. }
  destruct (Ascii.eqb c sep) eqn:Hc.
  - by constructor.
  - destruct (split sep s) as [|h t].
    + constructor; [|done]. cbn. by rewrite Hc.
    + apply Forall_cons in IH as [Hh Ht]. constructor; [|done].
      cbn. by rewrite Hc, Hh.
Qed.

(** ** What the adapters return and what they do to the world *)

Lemma safe_articles_keys v out :
  _safe_articles v = Ok out →
  Forall (λ a, is_Some (article_key a)) out ∧ NoDup (article_key <$> out).
Proof.
  intros Hrun. unfold _safe_articles in Hrun.
  destruct (py_iter (py_or v (PyList []))) as [l|]; [|done].
  cbn in Hrun.
  destruct (safe_loop_inv _ _ _ _ Hrun) as (kept & ks & -> & _ & Hks & Hnd & _).
  cbn [app].
  assert (article_key <$> kept = Some <$> ks) as Hkeys.
  { clear -Hks. induction Hks as [|a k kept ks Hk _ IH]; cbn; [done|].
    by rewrite Hk, IH. }
  split.
  - apply Forall_forall. intros a Ha.
    destruct (kept_key_of _ _ _ Hks Ha) as (k & _ & ->). by eexists.
  - rewrite Hkeys. by apply (NoDup_fmap_2 Some).
Qed.

Lemma adapter_call_run url params msg w :
  ∃ l, adapter_call url params msg w
       = (Ok l, World (rand w) (behead (wire w))
                  (stdout w ++ logged msg (wire w 0%nat url params 15)))
       ∧ (l = [] ∨ ∃ v, _safe_articles v = Ok l).
Proof.
  unfold adapter_call, logged, raised_in_try, mbind, M_bind, try_except,
    requests_get, lift, print, mret, M_ret.
  cbn [rand wire stdout].
  destruct (wire w 0%nat url params 15) as [r|e]; [|by eauto].
  destruct (json r) as [data|e]; [|by eauto].
  destruct data as [| | | | |d]; cbn [py_get]; try by eauto.
  destruct (py_eq_str (default PyNone (d !! "status")) "ok").
  - destruct (_safe_articles (default (PyList []) (d !! "articles"))) as [l|e] eqn:Hs.
    + exists l. rewrite app_nil_r. eauto.
    + by eauto.
  - exists []. rewrite app_nil_r. eauto.
Qed.

(** X6.  Whatever the provider answers, what an adapter returns is
    sanitized: every record is a dict with a URL and a title, no two
    records have the same URL, and sanitizing the list again changes
    nothing. *)
Theorem adapters_return_clean (key : option string) (w : world) :
  (∀ country page_size page,
     ∃ l, (fetch_top_headlines key country page_size page w).1 = Ok l
          ∧ Forall (λ a, is_Some (article_key a)) l
          ∧ NoDup (article_key <$> l)
          ∧ _safe_articles (PyList l) = Ok l)
  ∧ (∀ topic page_size page,
     ∃ l, (fetch_news_for_topic key topic page_size page w).1 = Ok l
          ∧ Forall (λ a, is_Some (article_key a)) l
          ∧ NoDup (article_key <$> l)
          ∧ _safe_articles (PyList l) = Ok l).
Proof.
  assert (∀ url params msg,
    ∃ l, ((if negb (truthy (api_key_value key)) then mret []
           else adapter_call url params msg) w).1 = Ok l
         ∧ Forall (λ a, is_Some (article_key a)) l
         ∧ NoDup (article_key <$> l)
         ∧ _safe_articles (PyList l) = Ok l) as Hboth.
  { intros url params msg.
    assert (∃ l : list pyval, l = [] ∧ Forall (λ a, is_Some (article_key a)) l
              ∧ NoDup (article_key <$> l) ∧ _safe_articles (PyList l) = Ok l)
      as (nil & -> & Hnil).
    { exists []. split_and!; try done. apply NoDup_nil_2. }
    destruct (truthy (api_key_value key)); cbn [negb]; [|by exists []].
    destruct (adapter_call_run url params msg w) as (l & -> & [->|[v Hv]]).
    - by exists [].
    - exists l. destruct (safe_articles_keys v l Hv). split_and!; try done.
      by eapply safe_articles_again. }
  split; intros; [rewrite fetch_top_headlines_unfold
                 |rewrite fetch_news_for_topic_unfold]; apply Hboth.
Qed.

(** X7.  Without an API key an adapter makes no request, prints nothing
    and leaves the generator alone.  With one it takes exactly one answer
    from the provider, draws nothing, and prints one line exactly when the
    [try] block ended in an exception; a status other than ["ok"] is not
    printed. *)
Theorem adapters_world (key : option string) (w : world) :
  (truthy (api_key_value key) = false →
   (∀ country page_size page,
      fetch_top_headlines key country page_size page w = (Ok [], w))
   ∧ (∀ topic page_size page,
      fetch_news_for_topic key topic page_size page w = (Ok [], w)))
  ∧ (truthy (api_key_value key) = true →
     (∀ country page_size page,
        (fetch_top_headlines key country page_size page w).2
        = World (rand w) (behead (wire w))
            (stdout w ++ logged "Top headlines error:"
               (wire w 0%nat TOP_NEWS_URL
                  (top_headlines_params key country page_size page) 15)))
     ∧ (∀ topic page_size page,
        (fetch_news_for_topic key topic page_size page w).2
        = World (rand w) (behead (wire w))
            (stdout w ++ logged ("Search error for '" +:+ topic +:+ "':")
               (wire w 0%nat SEARCH_URL (search_params key topic page_size page) 15))))
  ∧ (∀ msg r d,
       json r = Ok (PyDict d) → d !! "status" ≠ Some (PyStr "ok") →
       logged msg (Ok r) = []).
Proof.
  split_and!.
  - intros Hkey. split; intros.
    + by rewrite fetch_top_headlines_unfold, Hkey.
    + by rewrite fetch_news_for_topic_unfold, Hkey.
  - intros Hkey. split; intros.
    + rewrite fetch_top_headlines_unfold, Hkey. cbn [negb].
      by destruct (adapter_call_run TOP_NEWS_URL
                     (top_headlines_params key country page_size page)
                     "Top headlines error:" w) as (l & -> & _).
    + rewrite fetch_news_for_topic_unfold, Hkey. cbn [negb].
      by destruct (adapter_call_run SEARCH_URL
                     (search_params key topic page_size page)
                     ("Search error for '" +:+ topic +:+ "':") w) as (l & -> & _).
  - intros msg r d Hjson Hstatus. unfold logged, raised_in_try. rewrite Hjson.
    destruct (py_eq_str (default PyNone (d !! "status")) "ok") eqn:Hok; [|done].
    by apply status_ok_iff in Hok.
Qed.

(** X7 at sample worlds: no key, and a provider that times out. *)
Lemma adapters_world_witness :
  fetch_news_for_topic None "ai" 10 1 (world_answering (Raise ValueError))
    = (Ok [], world_answering (Raise ValueError))
  ∧ stdout (fetch_top_headlines (Some "k") "us" 12 1
              (world_answering (Raise (RequestException "timeout")))).2
    = [("Top headlines error:", RequestException "timeout")]
  ∧ logged "m" (Ok {| json := Ok (PyDict {["status" := PyStr "error"]}) |}) = [].
Proof.
  split_and!.
  - destruct (adapters_world None (world_answering (Raise ValueError)))
      as ([_ Hsearch] & _); [done|]. apply Hsearch.
  - destruct (adapters_world (Some "k")
                (world_answering (Raise (RequestException "timeout"))))
      as (_ & [Htop _] & _); [done|]. by rewrite Htop.
  - destruct (adapters_world None (world_answering (Raise ValueError)))
      as (_ & _ & Hsilent).
    apply (Hsilent "m" _ {["status" := PyStr "error"]}); [done|].
    by vm_compute.
Defined.

(** ** The topics of a user *)

Lemma all_chars_app P (a b : string) :
  all_chars P (a +:+ b) = all_chars P a && all_chars P b.
Proof.
  induction a as [|c a IH]; [done|].
  change (all_chars P (String c a +:+ b)) with (P c && all_chars P (a +:+ b)).
  rewrite IH. cbn. by rewrite andb_assoc.
Qed.

Lemma lstrip_part s : ∃ pre, s = pre +:+ lstrip s.
Proof.
  induction s as [|c s [pre IH]]; cbn [lstrip]; [by exists ""|].
  destruct (is_space c); [|by exists ""].
  exists (String c pre).
  change (String c s = String c (pre +:+ lstrip s)). by rewrite <-IH.
Qed.

Lemma rstrip_part s : ∃ post, s = rstrip s +:+ post.
Proof.
  induction s as [|c s [post IH]]; cbn [rstrip]; [by exists ""|].
  destruct (rstrip s) as [|c' r].
  - change (s = post) in IH. destruct (is_space c).
    + exists (String c post). change (String c s = String c post). by rewrite IH.
    + exists post. change (String c s = String c post). by rewrite IH.
  - exists post. change (String c s = String c (String c' r +:+ post)).
    by rewrite <-IH.
Qed.

(** The ASCII [strip] returns a part of its argument. *)
Lemma strip_part s : ∃ pre post, s = pre +:+ strip s +:+ post.
Proof.
  unfold strip. destruct (lstrip_part s) as [pre Hpre].
  destruct (rstrip_part (lstrip s)) as [post Hpost].
  exists pre, post. by rewrite <-Hpost.
Qed.

(** Where the topics of an interests string come from, whatever
    [str.strip] does. *)
Lemma interest_topics_elem `{SM : StrMethods} (ints t : string) :
  t ∈ interest_topics ints
  ↔ ∃ piece, piece ∈ split "," ints ∧ str_strip piece = t ∧ t ≠ "".
Proof.
  unfold interest_topics. rewrite list_elem_of_fmap. split.
  - intros (piece & -> & Hpiece).
    apply list_elem_of_In, filter_In in Hpiece as [Hpiece Hne].
    exists piece. split_and!; [by apply list_elem_of_In|done|].
    intros Hempty. unfold non_empty in Hne. by rewrite Hempty in Hne.
  - intros (piece & Hpiece & <- & Hne). exists piece. split; [done|].
    apply list_elem_of_In, filter_In. split; [by apply list_elem_of_In|].
    unfold non_empty. by apply negb_true_iff, String.eqb_neq.
Qed.


Lemma interest_topics_clean `{SM : StrMethods} (ints : string) :
  (∀ s, str_strip (str_strip s) = str_strip s) →
  (∀ s, ∃ pre post, s = pre +:+ str_strip s +:+ post) →
  Forall (λ t, t ≠ "" ∧ str_strip t = t
               ∧ all_chars (λ c, negb (Ascii.eqb c ",")) t = true)
    (interest_topics ints).
Proof.
  intros Hidem Hpart. apply Forall_forall. intros t Ht.
  apply interest_topics_elem in Ht as (piece & Hpiece & <- & Hne).
  split_and!; [done|apply Hidem|].
  pose proof (split_no_sep "," ints) as Hsep.
  eapply Forall_forall in Hsep; [|done].
  destruct (Hpart piece) as (pre & post & Heq).
  rewrite Heq, !all_chars_app, !andb_true_iff in Hsep. by destruct Hsep as (_ & ? & _).
Qed.

Lemma interest_topics_facts (ints : string) :
  Forall clean_topic (interest_topics ints).
Proof. apply (interest_topics_clean (SM := ascii_str) ints strip_idem strip_part). Qed.



Lemma used_topics_clean u :
  Forall clean_topic (used_topics_of u)
  ∧ (1 ≤ length (used_topics_of u) ≤ 5)%nat.
Proof.
  unfold used_topics_of.
  destruct (interest_topics (interests u)) as [|t ts] eqn:Htopics.
  - split; [|cbn; lia].
    repeat constructor; try done; discriminate.
  - split.
    + apply Forall_take. rewrite <-Htopics. apply interest_topics_facts.
    + rewrite length_take. cbn [length]. lia.
Qed.

Lemma used_topics_length `{SM : StrMethods} (u : User) :
  (1 ≤ length (used_topics_of u) ≤ 5)%nat.
Proof.
  unfold used_topics_of.
  destruct (interest_topics (interests u)) as [|t ts]; [cbn; lia|].
  rewrite length_take. cbn [length]. lia.
Qed.

(** ** The home page in every world *)

Lemma adapter_run key url params msg w :
  ∃ l w',
    (if negb (truthy (api_key_value key)) then mret []
     else adapter_call url params msg) w = (Ok l, w')
    ∧ rand w' = rand w
    ∧ wire w' = (if truthy (api_key_value key) then behead (wire w) else wire w)
    ∧ Forall (λ a, is_Some (article_key a)) l
    ∧ NoDup (article_key <$> l).
Proof.
  destruct (truthy (api_key_value key)); cbn [negb].
  - destruct (adapter_call_run url params msg w) as (l & -> & Hl).
    eexists _, _. split; [done|]. cbn [rand wire]. split_and!; try done.
    + destruct Hl as [->|[v Hv]]; [done|]. by destruct (safe_articles_keys v l Hv).
    + destruct Hl as [->|[v Hv]]; [apply NoDup_nil_2|].
      by destruct (safe_articles_keys v l Hv).
  - exists [], w. split_and!; try done. apply NoDup_nil_2.
Qed.

(** The topic loop adds one sanitized feed per topic, drawing one page
    number and (with an API key) making one request for each. *)
Lemma topic_loop_run key used_topics : ∀ topic_feeds w,
  ∃ new w',
    topic_loop key used_topics topic_feeds w = (Ok (topic_feeds ++ new), w')
    ∧ length new = length used_topics
    ∧ Forall (Forall (λ a, is_Some (article_key a))) new
    ∧ rand w' = Nat.iter (length used_topics) behead (rand w)
    ∧ wire w' = Nat.iter (if truthy (api_key_value key)
                          then length used_topics else 0%nat) behead (wire w).
Proof.
  induction used_topics as [|t rest IH]; intros topic_feeds w.
  { exists [], w. rewrite app_nil_r. split_and!; try done.
    by destruct (truthy (api_key_value key)). }
  cbn [topic_loop]. unfold mbind at 1, M_bind at 1.
  rewrite randint_1_3_run.
  unfold mbind at 1, M_bind at 1.
  rewrite fetch_news_for_topic_unfold.
  destruct (adapter_run key SEARCH_URL
              (search_params key t 10 (1 + Z.of_nat (rand w 0 `mod` 3)%nat))
              ("Search error for '" +:+ t +:+ "':")
              (World (behead (rand w)) (wire w) (stdout w)))
    as (l & w1 & -> & Hrand & Hwire & Hkeys & _).
  destruct (IH (topic_feeds ++ [l]) w1) as (new & w' & -> & Hlen & Hnew & Hrand' & Hwire').
  exists (l :: new), w'. split_and!.
  - by rewrite <-app_assoc.
  - cbn. by rewrite Hlen.
  - by constructor.
  - rewrite Hrand', Hrand. cbn [rand length]. by rewrite Nat.iter_succ_r.
  - rewrite Hwire', Hwire. cbn [wire length].
    destruct (truthy (api_key_value key)); [|done]. by rewrite Nat.iter_succ_r.
Qed.

(** The two ways through [home]. *)
Lemma home_run `{SM : StrMethods} key s users w :
  if has_interests (session_user s users) then
    ∃ u feeds w1 articles w2,
      session_user s users = Some u
      ∧ topic_loop key (used_topics_of u) [] w = (Ok feeds, w1)
      ∧ merge_shuffle_limit feeds 18 w1 = (Ok articles, w2)
      ∧ home key s users w
        = (Ok (RenderIndex articles (Some u) true (used_topics_of u)), w2)
  else
    ∃ l w',
      fetch_top_headlines key "us" 12 (1 + Z.of_nat (rand w 0 `mod` 3)%nat)
        (World (behead (rand w)) (wire w) (stdout w)) = (Ok l, w')
      ∧ home key s users w
        = (Ok (RenderIndex l (session_user s users) false []), w').
Proof.
  assert (∃ l w',
      fetch_top_headlines key "us" 12 (1 + Z.of_nat (rand w 0 `mod` 3)%nat)
        (World (behead (rand w)) (wire w) (stdout w)) = (Ok l, w')) as Htop.
  { rewrite fetch_top_headlines_unfold.
    destruct (adapter_run key TOP_NEWS_URL
                (top_headlines_params key "us" 12 (1 + Z.of_nat (rand w 0 `mod` 3)%nat))
                "Top headlines error:"
                (World (behead (rand w)) (wire w) (stdout w))) as (l & w' & -> & _).
    by eauto. }
  destruct Htop as (l & w' & Htop).
  assert ((page ← randint 1 3;
           articles ← fetch_top_headlines key "us" 12 page;
           mret (RenderIndex articles (session_user s users) false [])) w
          = (Ok (RenderIndex l (session_user s users) false []), w')) as Hfallback.
  { unfold mbind at 1, M_bind at 1. rewrite randint_1_3_run.
    unfold mbind, M_bind. by rewrite Htop. }
  unfold home, session_user in *.
  destruct (s_user_id s) as [uid|]; cbn [mbind option_bind has_interests] in *;
    [|by exists l, w'].
  destruct (db_get users uid) as [u|]; cbn [has_interests] in *; [|by exists l, w'].
  destruct (non_empty (interests u)); [|by exists l, w'].
  destruct (topic_loop_run key (used_topics_of u) [] w) as (feeds & w1 & Hloop & _).
  destruct (merge_shuffle_limit_run feeds 18 w1)
    as (articles & shuffled & w2 & Hmerge & _).
  exists u, feeds, w1, articles, w2. split_and!; try done.
  unfold used_topics_of in *. unfold mbind, M_bind. cbn [app] in Hloop.
  destruct (interest_topics (interests u)); by rewrite Hloop, Hmerge.
Qed.

(** X9.  [home] never raises, whatever the session, the store, the
    generator and the provider are: it renders the index for the user the
    session names (none when the id is unknown), personalized exactly when
    that user has interests.  Every article it renders has a URL and a
    title.  A personalized page has at most 18 articles and between one and
    five topics, each non-empty, stripped and comma-free; the other page
    has no topics and no URL twice. *)
Theorem home_renders (key : option string) (s : session) (users : list User)
    (w : world) :
  ∃ articles personalized topics w',
    home key s users w
    = (Ok (RenderIndex articles (session_user s users) personalized topics), w')
    ∧ personalized = has_interests (session_user s users)
    ∧ Forall (λ a, is_Some (article_key a)) articles
    ∧ (if personalized
       then (length articles ≤ 18)%nat
            ∧ (1 ≤ length topics ≤ 5)%nat
            ∧ Forall clean_topic topics
       else topics = [] ∧ NoDup (article_key <$> articles)).
Proof.
  pose proof (home_run key s users w) as Hrun.
  destruct (has_interests (session_user s users)) eqn:Hint.
  - destruct Hrun as (u & feeds & w1 & articles & w2 & Hu & Hloop & Hmerge & ->).
    exists articles, true, (used_topics_of u), w2. rewrite Hu.
    destruct (topic_loop_run key (used_topics_of u) [] w)
      as (new & w1' & Hloop' & _ & Hnew & _).
    rewrite Hloop in Hloop'. cbn [app] in Hloop'. injection Hloop' as -> _.
    destruct (merge_shuffle_limit_run new 18 w1)
      as (out & shuffled & w2' & Hmerge' & Hperm & -> & _).
    rewrite Hmerge in Hmerge'. injection Hmerge' as -> _.
    split_and!; try done.
    + apply Forall_forall. intros a Ha.
      eapply sublist_subseteq in Ha; [|apply slice_to_sublist].
      rewrite Hperm in Ha.
      apply list_elem_of_In, in_concat in Ha as (feed & Hfeed & Ha).
      apply list_elem_of_In in Hfeed, Ha.
      eapply Forall_forall in Hnew; [|done].
      by eapply Forall_forall in Hnew.
    + rewrite slice_to_length by done. lia.
    + apply used_topics_clean.
    + apply used_topics_clean.
    + apply used_topics_clean.
  - destruct Hrun as (l & w' & Htop & ->).
    exists l, false, [], w'. split_and!; try done.
    + rewrite fetch_top_headlines_unfold in Htop.
      destruct (adapter_run key TOP_NEWS_URL
                  (top_headlines_params key "us" 12 (1 + Z.of_nat (rand w 0 `mod` 3)%nat))
                  "Top headlines error:"
                  (World (behead (rand w)) (wire w) (stdout w)))
        as (l' & w'' & Hrun' & _ & _ & Hkeys & _).
      rewrite Htop in Hrun'. by injection Hrun' as -> _.
    + rewrite fetch_top_headlines_unfold in Htop.
      destruct (adapter_run key TOP_NEWS_URL
                  (top_headlines_params key "us" 12 (1 + Z.of_nat (rand w 0 `mod` 3)%nat))
                  "Top headlines error:"
                  (World (behead (rand w)) (wire w) (stdout w)))
        as (l' & w'' & Hrun' & _ & _ & _ & Hnd).
      rewrite Htop in Hrun'. by injection Hrun' as -> _.
Qed.

(** X10.  One call of [home] makes at most five requests: none without an
    API key, one per topic on the personalized page, one otherwise; the
    topics being those that [str.strip] leaves of the interests, whatever
    it strips. *)
Theorem home_requests `{SM : StrMethods} (key : option string) (s : session)
    (users : list User) (w : world) :
  wire (home key s users w).2
  = Nat.iter (requests_made key (session_user s users)) behead (wire w)
  ∧ (requests_made key (session_user s users) ≤ 5)%nat.
Proof.
  split.
  - pose proof (home_run key s users w) as Hrun. unfold requests_made.
    destruct (session_user s users) as [u|] eqn:Hu; cbn [has_interests] in Hrun.
    + destruct (non_empty (interests u)).
      * destruct Hrun as (u' & feeds & w1 & articles & w2 & [= <-] & Hloop & Hmerge & ->).
        destruct (topic_loop_run key (used_topics_of u) [] w)
          as (new & w1' & Hloop' & _ & _ & _ & Hwire).
        rewrite Hloop in Hloop'. injection Hloop' as _ <-.
        destruct (merge_shuffle_limit_run feeds 18 w1)
          as (out & shuffled & w2' & Hmerge' & _ & _ & Hwire' & _).
        rewrite Hmerge in Hmerge'. injection Hmerge' as _ <-.
        cbn [snd]. by rewrite Hwire', Hwire.
      * destruct Hrun as (l & w' & Htop & ->).
        rewrite fetch_top_headlines_unfold in Htop.
        destruct (adapter_run key TOP_NEWS_URL
                    (top_headlines_params key "us" 12
                       (1 + Z.of_nat (rand w 0 `mod` 3)%nat))
                    "Top headlines error:"
                    (World (behead (rand w)) (wire w) (stdout w)))
          as (l' & w'' & Hrun' & _ & Hwire & _).
        rewrite Htop in Hrun'. injection Hrun' as _ <-. cbn [snd].
        rewrite Hwire. cbn [wire]. by destruct (truthy (api_key_value key)).
    + destruct Hrun as (l & w' & Htop & ->).
      rewrite fetch_top_headlines_unfold in Htop.
      destruct (adapter_run key TOP_NEWS_URL
                  (top_headlines_params key "us" 12
                     (1 + Z.of_nat (rand w 0 `mod` 3)%nat))
                  "Top headlines error:"
                  (World (behead (rand w)) (wire w) (stdout w)))
        as (l' & w'' & Hrun' & _ & Hwire & _).
      rewrite Htop in Hrun'. injection Hrun' as _ <-. cbn [snd].
      rewrite Hwire. cbn [wire]. by destruct (truthy (api_key_value key)).
  - unfold requests_made. destruct (truthy (api_key_value key)); [|lia].
    destruct (session_user s users) as [u|]; [|lia].
    destruct (non_empty (interests u)); [|lia].
    apply used_topics_length.
Qed.

(** X11.  An anonymous visitor, a session whose user id is not in the
    table and a user with empty interests all get the same page: what the
    top-headlines adapter returns for country ["us"], page size 12 and a
    page between 1 and 3, in the order it returns it, neither shuffled nor
    cut to 18. *)
Theorem home_fallback (key : option string) (s : session) (users : list User)
    (w : world) :
  has_interests (session_user s users) = false →
  ∃ page l w',
    1 ≤ page ≤ 3
    ∧ fetch_top_headlines key "us" 12 page
        (World (behead (rand w)) (wire w) (stdout w)) = (Ok l, w')
    ∧ home key s users w = (Ok (RenderIndex l (session_user s users) false []), w').
Proof.
  intros Hint. pose proof (home_run key s users w) as Hrun.
  rewrite Hint in Hrun. destruct Hrun as (l & w' & Htop & Hhome).
  exists (1 + Z.of_nat (rand w 0 `mod` 3)%nat), l, w'. split_and!; try done; try lia.
  pose proof (Nat.mod_upper_bound (rand w 0%nat) 3). lia.
Qed.

(** X11 for the anonymous visitor. *)
Lemma home_fallback_witness :
  ∃ page l w',
    1 ≤ page ≤ 3
    ∧ home (Some "k") anonymous one_user
        (world_answering (Ok (ok_response (PyList tech_feed))))
      = (Ok (RenderIndex l None false []), w').
Proof.
  destruct (home_fallback (Some "k") anonymous one_user
              (world_answering (Ok (ok_response (PyList tech_feed)))))
    as (page & l & w' & Hpage & _ & Hhome).
  - reflexivity.
  - by exists page, l, w'.
Defined.

Lemma always_answers_iter r w w' n :
  always_answers r w → wire w' = Nat.iter n behead (wire w) → always_answers r w'.
Proof.
  intros Hw Hwire i url params timeout. rewrite Hwire. clear Hwire.
  revert i. induction n as [|n IH]; intros i; cbn; [apply Hw|].
  unfold behead at 1. apply IH.
Qed.

Lemma topic_loop_constant key r d cleaned used_topics :
  truthy (api_key_value key) = true →
  json r = Ok (PyDict d) →
  d !! "status" = Some (PyStr "ok") →
  _safe_articles (default (PyList []) (d !! "articles")) = Ok cleaned →
  ∀ topic_feeds w,
    always_answers (Ok r) w →
    ∃ w', topic_loop key used_topics topic_feeds w
          = (Ok (topic_feeds ++ replicate (length used_topics) cleaned), w').
Proof.
  intros Hkey Hjson Hstatus Hclean.
  induction used_topics as [|t rest IH]; intros topic_feeds w Hw.
  { exists w. cbn. by rewrite app_nil_r. }
  cbn [topic_loop]. unfold mbind at 1, M_bind at 1.
  rewrite randint_1_3_run.
  unfold mbind at 1, M_bind at 1.
  set (w0 := World (behead (rand w)) (wire w) (stdout w)).
  set (page := 1 + Z.of_nat (rand w 0 `mod` 3)%nat).
  assert (always_answers (Ok r) w0) as Hw0 by done.
  pose proof (adapter_call_ok SEARCH_URL (search_params key t 10 page)
                ("Search error for '" +:+ t +:+ "':") w0 r d (Hw0 _ _ _ _)
                Hjson Hstatus) as Hvalue.
  rewrite Hclean in Hvalue.
  rewrite fetch_news_for_topic_unfold.
  destruct (adapter_run key SEARCH_URL (search_params key t 10 page)
              ("Search error for '" +:+ t +:+ "':") w0)
    as (l & w1 & Hrun & _ & Hwire & _).
  rewrite Hkey in Hrun, Hwire. cbn [negb] in Hrun.
  rewrite Hkey. cbn [negb]. rewrite Hrun in Hvalue |- *.
  cbn [fst] in Hvalue. injection Hvalue as ->.
  destruct (IH (topic_feeds ++ [cleaned]) w1) as [w' ->].
  { by apply (always_answers_iter (Ok r) w0 w1 1). }
  exists w'. by rewrite <-app_assoc.
Qed.

(** X12.  Duplicates across topics are kept: when the provider gives the
    same answer to every request and all of it fits in 18, the personalized
    page shows each sanitized article once per topic, for the topics that
    [str.strip] leaves of the interests, whatever it strips. *)
Theorem home_repeats_across_topics `{SM : StrMethods} (key : option string)
    (s : session) (users : list User) (w : world) (u : User) (r : http_response)
    (d : gmap string pyval) (cleaned : list pyval) :
  truthy (api_key_value key) = true →
  session_user s users = Some u →
  interests u ≠ "" →
  always_answers (Ok r) w →
  json r = Ok (PyDict d) →
  d !! "status" = Some (PyStr "ok") →
  _safe_articles (default (PyList []) (d !! "articles")) = Ok cleaned →
  (length (used_topics_of u) * length cleaned ≤ 18)%nat →
  ∃ articles w',
    home key s users w
    = (Ok (RenderIndex articles (Some u) true (used_topics_of u)), w')
    ∧ articles ≡ₚ concat (replicate (length (used_topics_of u)) cleaned).
Proof.
  intros Hkey Hu Hne Hw Hjson Hstatus Hclean Hfit.
  pose proof (home_run key s users w) as Hrun. rewrite Hu in Hrun.
  cbn [has_interests] in Hrun.
  assert (non_empty (interests u) = true) as Hint.
  { unfold non_empty. by apply negb_true_iff, String.eqb_neq. }
  rewrite Hint in Hrun.
  destruct Hrun as (u' & feeds & w1 & articles & w2 & [= <-] & Hloop & Hmerge & ->).
  destruct (topic_loop_constant key r d cleaned (used_topics_of u)
              Hkey Hjson Hstatus Hclean [] w Hw) as [w1' Hloop'].
  rewrite Hloop in Hloop'. cbn [app] in Hloop'. injection Hloop' as -> _.
  destruct (merge_shuffle_limit_run
              (replicate (length (used_topics_of u)) cleaned) 18 w1)
    as (out & shuffled & w2' & Hmerge' & Hperm & -> & _).
  rewrite Hmerge in Hmerge'. injection Hmerge' as -> _.
  exists (slice_to shuffled 18), w2. split; [done|].
  rewrite slice_to_all; [done|].
  rewrite (Permutation_length Hperm).
  assert (length (concat (replicate (length (used_topics_of u)) cleaned))
          = (length (used_topics_of u) * length cleaned)%nat) as ->; [|lia].
  generalize (length (used_topics_of u)) as n.
  induction n as [|n IH]; cbn; [done|]. rewrite length_app, IH. lia.
Qed.

(** X12 for a user with two topics and a provider that always sends the
    same three articles. *)
Lemma home_repeats_across_topics_witness :
  ∃ articles w',
    home (Some "k") (mkSession (Some 3) (Some "bo@x.com"))
      [mkUser 3 "Bo" "bo@x.com" "h:pw" "ai, chess"]
      (world_answering (Ok (ok_response (PyList tech_feed))))
    = (Ok (RenderIndex articles (Some (mkUser 3 "Bo" "bo@x.com" "h:pw" "ai, chess"))
             true ["ai"; "chess"]), w')
    ∧ articles ≡ₚ tech_feed ++ tech_feed.
Proof.
  destruct (home_repeats_across_topics (Some "k") (mkSession (Some 3) (Some "bo@x.com"))
              [mkUser 3 "Bo" "bo@x.com" "h:pw" "ai, chess"]
              (world_answering (Ok (ok_response (PyList tech_feed))))
              (mkUser 3 "Bo" "bo@x.com" "h:pw" "ai, chess")
              (ok_response (PyList tech_feed))
              (<["status" := PyStr "ok"]> (<["articles" := PyList tech_feed]> ∅))
              tech_feed)
    as (articles & w' & Hhome & Hperm).
  - reflexivity.
  - reflexivity.
  - discriminate.
  - intros i url params timeout. reflexivity.
  - reflexivity.
  - reflexivity.
  - by vm_compute.
  - vm_compute. lia.
  - exists articles, w'. split; [exact Hhome|].
    rewrite Hperm. by vm_compute.
Defined.

(** ** The user table under registration *)

(** [find] passes over a front part none of whose elements match. *)
Lemma find_past {A} (f : A → bool) (front back : list A) :
  (∀ x, x ∈ front → f x = false) → find f (front ++ back) = find f back.
Proof.
  induction front as [|a front IH]; intros Hnone; cbn; [done|].
  rewrite (Hnone a) by left. apply IH. intros x Hx. apply Hnone. by right.
Qed.

Lemma next_id_above (users : list User) :
  1 ≤ next_id users ∧ ∀ u, u ∈ users → id u < next_id users.
Proof.
  unfold next_id. induction users as [|a users [IH1 IH2]]; cbn.
  { split; [lia|]. intros u Hu. by apply elem_of_nil in Hu. }
  split; [lia|]. intros u [->|Hu]%elem_of_cons; [lia|].
  specialize (IH2 u Hu). lia.
Qed.

Lemma next_id_below (users : list User) (m : Z) :
  (∀ u, u ∈ users → id u ≤ m) → 0 ≤ m → next_id users ≤ m + 1.
Proof.
  unfold next_id. intros Hle Hm.
  assert (foldr (λ u m, id u `max` m) 0 users ≤ m); [|lia].
  induction users as [|a users IH]; cbn; [done|].
  assert (id a ≤ m) by (apply Hle; left).
  enough (foldr (λ u m, id u `max` m) 0 users ≤ m) by lia.
  apply IH. intros u Hu. apply Hle. by right.
Qed.

(** Every call of [register] leaves the store as it is or appends the row
    made from the submitted fields. *)
Lemma register_outcome `{SM : StrMethods} sha req users :
  (register sha req users).2 = users
  ∨ ∃ n e p,
      (register sha req users).2
      = users ++ [mkUser (next_id users) (str_strip n) (str_lower (str_strip e)) (sha p)
                    (str_strip (default "" (form req !! "interests")))]
      ∧ str_lower (str_strip e) ∉ email <$> users.
Proof.
  unfold register.
  destruct (method req); [by left|].
  unfold form_item.
  destruct (form req !! "name") as [n|]; [|by left].
  destruct (form req !! "email") as [e|]; [|by left].
  destruct (form req !! "password") as [p|]; [|by left].
  cbn.
  destruct (find _ users) as [u|] eqn:Hfind; [by left|].
  right. exists n, e, p. split; [done|].
  intros (u & Hemail & Hu)%list_elem_of_fmap.
  apply list_elem_of_In in Hu.
  pose proof (find_none _ _ Hfind u Hu) as Hneq. cbn in Hneq.
  apply String.eqb_neq in Hneq. congruence.
Qed.

Lemma registered_store (sha : string → string) (users : list User) :
  registered sha users →
  (∀ i u, users !! i = Some u → id u = Z.of_nat (S i))
  ∧ NoDup (id <$> users)
  ∧ NoDup (email <$> users)
  ∧ Forall (λ u, lower (strip (email u)) = email u
                 ∧ strip (name u) = name u
                 ∧ strip (interests u) = interests u
                 ∧ (∃ pw, password_hash u = sha pw)
                 ∧ db_get users (id u) = Some u) users.
Proof.
  intros Hreg.
  assert ((∀ i u, users !! i = Some u → id u = Z.of_nat (S i))
          ∧ Forall (λ u, lower (strip (email u)) = email u
                         ∧ strip (name u) = name u
                         ∧ strip (interests u) = interests u
                         ∧ ∃ pw, password_hash u = sha pw) users) as [Hids Hrows].
  { induction Hreg as [|users req _ [IHids IHrows]].
    { split; [by intros i u|constructor]. }
    destruct (register_outcome sha req users) as [->|(n & e & p & -> & _)]; [done|].
    assert (next_id users = Z.of_nat (S (length users))) as Hnext.
    { apply Z.le_antisymm.
      - pose proof (next_id_below users (Z.of_nat (length users))) as Hbelow.
        rewrite Nat2Z.inj_succ. unfold Z.succ. apply Hbelow; [|lia].
        intros u [i Hi]%list_elem_of_lookup.
        rewrite (IHids i u Hi). apply lookup_lt_Some in Hi. lia.
      - destruct (next_id_above users) as [Hone Habove].
        destruct users as [|a users _] using rev_ind; [cbn; lia|].
        rewrite length_app. cbn [length].
        specialize (Habove a). specialize (IHids (length users) a).
        rewrite lookup_app_r, Nat.sub_diag in IHids by done.
        rewrite IHids in Habove by done.
        assert (a ∈ users ++ [a]) as Ha by (apply elem_of_app; right; by left).
        specialize (Habove Ha). lia. }
    split.
    - intros i u [Hi|[Hlen Hi]]%lookup_app_Some; [by apply IHids|].
      apply list_lookup_singleton_Some in Hi as [Hi <-]. cbn [id].
      rewrite Hnext. lia.
    - apply Forall_app. split; [done|]. constructor; [|done]. cbn.
      split_and!; [apply normalize_idem|apply strip_idem|apply strip_idem|by eexists]. }
  assert (NoDup (id <$> users)) as Hnd.
  { apply NoDup_alt. intros i j x Hi Hj.
    apply list_lookup_fmap_Some in Hi as (u & -> & Hu).
    apply list_lookup_fmap_Some in Hj as (u' & Heq & Hu').
    rewrite (Hids i u Hu), (Hids j u' Hu') in Heq. lia. }
  split_and!; try done.
  - by eapply registered_emails_NoDup.
  - apply Forall_forall. intros u Hu.
    eapply Forall_forall in Hrows as (? & ? & ? & ?); [|done].
    split_and!; try done.
    unfold db_get. destruct (find _ users) as [u'|] eqn:Hfind.
    + apply find_elem_of in Hfind as [Hu' Heq%Z.eqb_eq].
      f_equal. by apply (NoDup_fmap_eq id users).
    + apply list_elem_of_In in Hu.
      pose proof (find_none _ _ Hfind u Hu) as Hno. cbn in Hno.
      by rewrite Z.eqb_refl in Hno.
Qed.

(** X13.  In every store that registration builds from the empty table,
    the ids are 1, 2, 3, ... in insertion order, no email occurs twice,
    every stored email is its own normal form (stripped and lower-case),
    names and interests are stripped, every password hash is the hash of
    some password, and looking a user up by id gives that user back. *)
Theorem registered_invariants (sha : string → string) (users : list User) :
  registered sha users →
  (∀ i u, users !! i = Some u → id u = Z.of_nat (S i))
  ∧ NoDup (id <$> users)
  ∧ NoDup (email <$> users)
  ∧ Forall (λ u, lower (strip (email u)) = email u
                 ∧ strip (name u) = name u
                 ∧ strip (interests u) = interests u
                 ∧ (∃ pw, password_hash u = sha pw)
                 ∧ db_get users (id u) = Some u) users.
Proof. apply registered_store. Qed.

(** X13 at the store with one registered user. *)
Lemma registered_invariants_witness :
  registered toy_hash one_user ∧ NoDup (email <$> one_user).
Proof.
  assert (registered toy_hash one_user) as Hreg.
  { apply (registered_step toy_hash [] (register_form "Ann" " Ann@X.com" "pw")).
    apply registered_nil. }
  split; [exact Hreg|].
  by destruct (registered_invariants toy_hash one_user Hreg) as (_ & _ & Hnd & _).
Defined.

(** ** Registration, login and logout together *)

(** X14.  Registering and then logging in: after an accepted registration
    a login with the same password and any spelling of the email that has
    the same normal form succeeds, as the user just created; a password
    with another hash is refused and leaves the session alone.  The normal
    form is [str.lower] of [str.strip] of the email, whatever the two
    methods do to it. *)
Theorem register_then_login `{SM : StrMethods} (sha : string → string)
    (users : list User) (req req' : request) (s : session)
    (n e p e' p' : string) :
  method req = POST →
  form req !! "name" = Some n →
  form req !! "email" = Some e →
  form req !! "password" = Some p →
  ¬ (∃ u, u ∈ users ∧ email u = str_lower (str_strip e)) →
  method req' = POST →
  form req' !! "email" = Some e' →
  form req' !! "password" = Some p' →
  str_lower (str_strip e') = str_lower (str_strip e) →
  (sha p' = sha p →
   login sha req' (register sha req users).2 s
   = (Ok (Redirect "home"),
      mkSession (Some (next_id users)) (Some (str_lower (str_strip e)))))
  ∧ (sha p' ≠ sha p →
     login sha req' (register sha req users).2 s
     = (Ok (Text "Invalid credentials"), s)).
Proof.
  intros Hm Hn He Hp Hfree Hm' He' Hp' Hsame.
  rewrite (register_post sha req users n e p Hm Hn He Hp).
  destruct (find _ users) as [u|] eqn:Hfind.
  { destruct Hfree. apply email_taken. eauto. }
  cbn [snd].
  rewrite (login_post sha req' _ s e' p' Hm' He' Hp'), Hsame.
  rewrite find_past.
  - cbn [find email password_hash]. rewrite String.eqb_refl. unfold hash_password.
    split; intros Hhash.
    + by rewrite Hhash, String.eqb_refl.
    + rewrite (proj2 (String.eqb_neq _ _)); [done|]. congruence.
  - intros u Hu. apply andb_false_iff. left. apply String.eqb_neq.
    intros Hemail. apply Hfree. by exists u.
Qed.

(** X14 at the empty store. *)
Lemma register_then_login_witness :
  login toy_hash (login_form "ANN@x.com" "pw")
    (register toy_hash (register_form "Ann" " Ann@X.com" "pw") []).2 anonymous
  = (Ok (Redirect "home"), mkSession (Some 1) (Some "ann@x.com")).
Proof.
  assert (¬ ∃ u : User, u ∈ [] ∧ email u = lower (strip " Ann@X.com")) as Hfree.
  { intros (u & []%elem_of_nil & _). }
  destruct (register_then_login (SM := ascii_str) toy_hash []
              (register_form "Ann" " Ann@X.com" "pw")
              (login_form "ANN@x.com" "pw") anonymous
              "Ann" " Ann@X.com" "pw" "ANN@x.com" "pw"
              eq_refl eq_refl eq_refl eq_refl Hfree eq_refl eq_refl eq_refl eq_refl)
    as [Hok _].
  apply Hok. reflexivity.
Defined.

Lemma register_all_snoc sha reqs req users :
  register_all sha (reqs ++ [req]) users
  = (register sha req (register_all sha reqs users)).2.
Proof. unfold register_all. by rewrite foldl_app. Qed.

(** X15.  Registration only ever appends: whatever requests are served,
    the rows there were stay where they are, unchanged, at most one row is
    added per request, and if no email occurred twice before, none does
    after. *)
Theorem register_all_append_only (sha : string → string) (reqs : list request)
    (users : list User) :
  users `prefix_of` register_all sha reqs users
  ∧ (length (register_all sha reqs users) ≤ length users + length reqs)%nat
  ∧ (NoDup (email <$> users) → NoDup (email <$> register_all sha reqs users)).
Proof.
  induction reqs as [|req reqs (IHpre & IHlen & IHnd)] using rev_ind.
  { cbn. split_and!; [done|lia|done]. }
  rewrite register_all_snoc, length_app. cbn [length].
  destruct (register_outcome sha req (register_all sha reqs users))
    as [->|(n & e & p & -> & Hfresh)].
  - split_and!; [done|lia|done].
  - split_and!.
    + by apply prefix_app_r.
    + rewrite length_app. cbn [length]. lia.
    + intros Hnd. rewrite fmap_app. apply NoDup_app. split_and!.
      * by apply IHnd.
      * intros x Hx [->|[]%elem_of_nil]%elem_of_cons. done.
      * apply NoDup_singleton.
Qed.

(** X15 at the empty store. *)
Lemma register_all_append_only_witness :
  NoDup (email <$> register_all toy_hash
           [register_form "Ann" "a@x.com" "p"; register_form "Bea" " A@X.COM" "q";
            register_form "Cy" "c@x.com" "r"] []).
Proof.
  destruct (register_all_append_only toy_hash
              [register_form "Ann" "a@x.com" "p"; register_form "Bea" " A@X.COM" "q";
               register_form "Cy" "c@x.com" "r"] []) as (_ & _ & Hnd).
  apply Hnd. apply NoDup_nil_2.
Defined.

Lemma login_success sha req users s :
  (login sha req users s).1 = Ok (Redirect "home") →
  ∃ u, u ∈ users
       ∧ (login sha req users s).2 = mkSession (Some (id u)) (Some (email u)).
Proof.
  unfold login. destruct (method req); [done|].
  destruct (_ ≫= _) as [[em pw]|e]; [|done].
  destruct (find _ users) as [u|] eqn:Hfind; [|done].
  intros _. apply find_elem_of in Hfind as [Hu _]. by exists u.
Qed.

(** X16.  The session a successful login leaves names a stored user, by id
    and by email alike: in a store built by registration, the user that
    [home] looks up for that session is the user whose email the session
    holds. *)
Theorem login_then_home (sha : string → string) (req : request)
    (users : list User) (s : session) :
  registered sha users →
  (login sha req users s).1 = Ok (Redirect "home") →
  ∃ u, u ∈ users
       ∧ session_user (login sha req users s).2 users = Some u
       ∧ s_email (login sha req users s).2 = Some (email u).
Proof.
  intros Hreg (u & Hu & ->)%login_success.
  exists u. split_and!; try done.
  destruct (registered_store sha users Hreg) as (_ & _ & _ & Hrows).
  eapply Forall_forall in Hrows as (_ & _ & _ & _ & Hget); [|done].
  by unfold session_user.
Qed.

(** X16 at the store with one registered user. *)
Lemma login_then_home_witness :
  ∃ u, session_user (login toy_hash (login_form "ann@x.com" "pw") one_user anonymous).2
         one_user = Some u.
Proof.
  destruct (login_then_home toy_hash (login_form "ann@x.com" "pw") one_user anonymous)
    as (u & _ & Hu & _).
  - apply (registered_step toy_hash [] (register_form "Ann" " Ann@X.com" "pw")).
    apply registered_nil.
  - by vm_compute.
  - by exists u.
Defined.

(** X17.  The admin gate compares with [ADMIN_EMAIL] as configured, while
    registration stores emails stripped and lower-case: if [ADMIN_EMAIL] is
    not its own normal form (a capital letter, a space at either end), no
    session that a login leaves passes the gate. *)
Theorem admin_email_must_be_normal (sha : string → string) (ADMIN_EMAIL : string)
    (req : request) (users : list User) (s : session) :
  registered sha users →
  lower (strip ADMIN_EMAIL) ≠ ADMIN_EMAIL →
  (login sha req users s).1 = Ok (Redirect "home") →
  admin_required ADMIN_EMAIL (login sha req users s).2 = Raise (HTTPException 403).
Proof.
  intros Hreg Hadmin (u & Hu & ->)%login_success.
  destruct (registered_store sha users Hreg) as (_ & _ & _ & Hrows).
  eapply Forall_forall in Hrows as (Hnormal & _); [|done].
  unfold admin_required. cbn.
  destruct (String.eqb_spec (email u) ADMIN_EMAIL) as [Heq|]; [|done].
  rewrite Heq in Hnormal. done.
Qed.

(** X17 for an administrator address written with capitals. *)
Lemma admin_email_must_be_normal_witness :
  admin_required "Ann@X.com"
    (login toy_hash (login_form "Ann@X.com" "pw") one_user anonymous).2
  = Raise (HTTPException 403).
Proof.
  apply (admin_email_must_be_normal toy_hash "Ann@X.com").
  - apply (registered_step toy_hash [] (register_form "Ann" " Ann@X.com" "pw")).
    apply registered_nil.
  - by vm_compute.
  - by vm_compute.
Defined.

(** X18.  After [logout] nothing that needs a login works, whatever the
    session was: the admin gate refuses for every administrator address,
    an article view is redirected to the login page and records nothing,
    and the home page is the one without a user. *)
Theorem logout_then (s : session) :
  (logout s).1 = Ok (Redirect "home")
  ∧ (∀ ADMIN_EMAIL, admin_required ADMIN_EMAIL (logout s).2 = Raise (HTTPException 403))
  ∧ (∀ title utcnow activities,
       article (logout s).2 title utcnow activities
       = (Ok (Redirect "login"), activities))
  ∧ (∀ users, session_user (logout s).2 users = None).
Proof. split_and!; done. Qed.

(** X19.  A missing form field is a 400 that changes nothing: [login]
    needs ["email"] and ["password"], [register] needs ["name"] as well,
    and ["interests"] may be left out.  A GET renders the form and changes
    nothing either. *)
Theorem form_errors (sha : string → string) (req : request) (users : list User)
    (s : session) :
  (method req = POST →
   form req !! "email" = None ∨ form req !! "password" = None →
   login sha req users s = (Raise (HTTPException 400), s))
  ∧ (method req = POST →
     form req !! "name" = None ∨ form req !! "email" = None
     ∨ form req !! "password" = None →
     register sha req users = (Raise (HTTPException 400), users))
  ∧ (method req = POST →
     is_Some (form req !! "name") → is_Some (form req !! "email") →
     is_Some (form req !! "password") → form req !! "interests" = None →
     ∃ r users', register sha req users = (Ok r, users')
                 ∧ Forall (λ u, u ∈ users ∨ interests u = "") users')
  ∧ (method req = GET →
     login sha req users s = (Ok (RenderTemplate "login.html"), s)
     ∧ register sha req users = (Ok (RenderTemplate "register.html"), users)).
Proof.
  split_and!.
  - intros Hm Hmissing. unfold login, form_item. rewrite Hm.
    destruct (form req !! "email"), (form req !! "password");
      by destruct Hmissing.
  - intros Hm Hmissing. unfold register, form_item. rewrite Hm.
    destruct (form req !! "name"), (form req !! "email"), (form req !! "password");
      by destruct Hmissing as [?|[?|?]].
  - intros Hm [n Hn] [e He] [p Hp] Hi.
    rewrite (register_post sha req users n e p Hm Hn He Hp), Hi.
    destruct (find _ users).
    + eexists _, _. split; [done|].
      apply Forall_forall. by left.
    + eexists _, _. split; [done|].
      apply Forall_app. split; [apply Forall_forall; by left|].
      constructor; [by right|done].
  - intros Hm. unfold login, register. by rewrite Hm.
Qed.

(** X19 at a login form without a password. *)
Lemma form_errors_witness :
  login toy_hash (mkRequest POST {["email" := "a@x.com"]}) one_user anonymous
  = (Raise (HTTPException 400), anonymous).
Proof.
  destruct (form_errors toy_hash (mkRequest POST {["email" := "a@x.com"]})
              one_user anonymous) as (Hlogin & _).
  apply Hlogin; [reflexivity|]. right. reflexivity.
Defined.

(** X20.  Only the hash of the password matters, and it depends on the
    password alone: two submissions that differ in passwords of equal hash
    get the same answer from [login], and two accepted registrations with
    the same password store the same hash. *)
Theorem password_hash_only (sha : string → string) (users : list User)
    (s : session) (req req' : request) (e p p' : string) :
  method req = POST → method req' = POST →
  form req !! "email" = Some e → form req' !! "email" = Some e →
  form req !! "password" = Some p → form req' !! "password" = Some p' →
  sha p = sha p' →
  login sha req users s = login sha req' users s
  ∧ (∀ users' new new',
       (register sha req users).2 = users ++ [new] →
       (register sha req' users').2 = users' ++ [new'] →
       password_hash new = password_hash new').
Proof.
  intros Hm Hm' He He' Hp Hp' Hhash. split.
  - rewrite (login_post sha req users s e p Hm He Hp).
    rewrite (login_post sha req' users s e p' Hm' He' Hp').
    unfold hash_password. by rewrite Hhash.
  - intros users' new new' Hnew Hnew'.
    assert (∀ r us x q, form r !! "password" = Some q →
              (register sha r us).2 = us ++ [x] → password_hash x = sha q) as Hrow.
    { intros r us x q Hq Hx.
      destruct (register_outcome sha r us) as [Hsame|(n0 & e0 & p0 & Hrun & _)].
      - rewrite Hsame in Hx. apply (f_equal length) in Hx.
        rewrite length_app in Hx. cbn in Hx. lia.
      - rewrite Hrun in Hx. apply app_inv_head in Hx. injection Hx as <-.
        cbn. unfold register in Hrun. destruct (method r).
        + cbn in Hrun. apply (f_equal length) in Hrun.
          rewrite length_app in Hrun. cbn in Hrun. lia.
        + unfold form_item in Hrun. rewrite Hq in Hrun.
          destruct (form r !! "name"), (form r !! "email"); cbn in Hrun;
            try (apply (f_equal length) in Hrun;
                 rewrite length_app in Hrun; cbn in Hrun; lia).
          destruct (find _ us); cbn in Hrun.
          * apply (f_equal length) in Hrun.
            rewrite length_app in Hrun. cbn in Hrun. lia.
          * apply app_inv_head in Hrun. by injection Hrun. }
    rewrite (Hrow req users new p Hp Hnew), (Hrow req' users' new' p' Hp' Hnew').
    done.
Qed.

(** X20 with a hash that only looks at the first character. *)
Lemma password_hash_only_witness :
  login (λ pw, substring 0 1 pw) (login_form "a@x.com" "pw") one_user anonymous
  = login (λ pw, substring 0 1 pw) (login_form "a@x.com" "pa") one_user anonymous.
Proof.
  by destruct (password_hash_only (λ pw, substring 0 1 pw) one_user anonymous
                 (login_form "a@x.com" "pw") (login_form "a@x.com" "pa")
                 "a@x.com" "pw" "pa"
                 eq_refl eq_refl eq_refl eq_refl eq_refl eq_refl eq_refl)
    as [Hlogin _].
Defined.

(** ** The activity recorder *)

Example article_ex :
  article (mkSession (Some 4) (Some "d@x.com")) "T" 100 []
  = (Ok (Text "<h1>T</h1><p>Open source link from the card to read full story.</p>"),
     [mkActivity 1 4 "T" 100]).
Proof. reflexivity. Qed.

Lemma next_activity_id_above (activities : list Activity) :
  ∀ a, a ∈ activities → activity_id a < next_activity_id activities.
Proof.
  unfold next_activity_id. induction activities as [|b activities IH]; cbn.
  { intros a Ha. by apply elem_of_nil in Ha. }
  intros a [->|Ha]%elem_of_cons; [lia|].
  specialize (IH a Ha). lia.
Qed.

Lemma view_all_snoc views v activities :
  view_all (views ++ [v]) activities
  = (article v.1.1 v.1.2 v.2 (view_all views activities)).2.
Proof. unfold view_all. by rewrite foldl_app. Qed.

(** X21.  The activity table is an append-only log of the article views:
    whatever views are served, the rows there were stay, and behind them
    comes one row per view made with a logged-in session, in the order of
    the views, holding that session's user id, the title and the time of
    the view; an anonymous view adds nothing, a repeated view adds a row
    again.  Row ids that were distinct stay distinct. *)
Theorem view_all_log (views : list (session * string * Z))
    (activities : list Activity) :
  ∃ added,
    view_all views activities = activities ++ added
    ∧ (λ a, (user_id a, article_title a, time a)) <$> added
      = omap (λ v, (λ uid, (uid, v.1.2, v.2)) <$> s_user_id v.1.1) views
    ∧ (NoDup (activity_id <$> activities) →
       NoDup (activity_id <$> view_all views activities)).
Proof.
  induction views as [|v views (added & IHrun & IHrows & IHnd)] using rev_ind.
  { exists []. cbn. by rewrite app_nil_r. }
  rewrite view_all_snoc, omap_app.
  destruct v as [[s title] utcnow]. unfold article.
  assert (∀ (f : session * string * Z → option (Z * string * Z)) v,
            omap f [v] = match f v with Some y => [y] | None => [] end) as ->
    by done.
  cbn [fst snd].
  destruct (s_user_id s) as [uid|]; cbn [fmap option_fmap option_map snd].
  - exists (added ++ [mkActivity (next_activity_id (view_all views activities))
                        uid title utcnow]).
    split_and!.
    + by rewrite IHrun, app_assoc.
    + by rewrite fmap_app, IHrows.
    + intros Hnd. rewrite fmap_app. apply NoDup_app. split_and!.
      * by apply IHnd.
      * intros x (a & -> & Ha)%list_elem_of_fmap [Heq|[]%elem_of_nil]%elem_of_cons.
        cbn in Heq. pose proof (next_activity_id_above _ a Ha). lia.
      * apply NoDup_singleton.
  - exists added. rewrite app_nil_r. by split_and!.
Qed.

(** X21 with one row in the table. *)
Lemma view_all_log_witness :
  NoDup (activity_id <$>
           view_all [(mkSession (Some 4) None, "T", 100); (anonymous, "U", 101);
                     (mkSession (Some 4) None, "T", 102)]
             [mkActivity 7 1 "S" 50]).
Proof.
  destruct (view_all_log [(mkSession (Some 4) None, "T", 100); (anonymous, "U", 101);
                          (mkSession (Some 4) None, "T", 102)]
              [mkActivity 7 1 "S" 50]) as (added & _ & _ & Hnd).
  apply Hnd. apply NoDup_singleton.
Defined.

(** ** The sanitizer on every list it gets through *)

(** X22.  Whenever the sanitizer returns on a list, whatever the records
    hold, the output is a subsequence of the input made of dicts with a
    truthy URL and a truthy title, no two of them with URLs that Python
    compares equal ([True] and [1] are one URL), and it holds the first
    record with a title for each such URL of the input. *)
Theorem safe_articles_any_records (items out : list pyval) :
  _safe_articles (PyList items) = Ok out →
  out `sublist_of` items
  ∧ Forall (λ a, is_Some (article_key a)) out
  ∧ NoDup (article_key <$> out)
  ∧ (∀ i a, items !! i = Some a → is_Some (article_key a) →
       (∀ j b, (j < i)%nat → items !! j = Some b → article_key b ≠ article_key a) →
       a ∈ out)
  ∧ (∀ a, a ∈ items → is_Some (article_key a) →
       article_key a ∈ article_key <$> out).
Proof.
  intros Hrun. destruct (safe_articles_keys _ _ Hrun) as [Hkeys Hnd].
  rewrite safe_articles_list in Hrun.
  destruct (safe_loop_inv _ _ _ _ Hrun)
    as (kept & ks & -> & Hsub & Hks & _ & _ & Hcov & Hfirst).
  cbn [app] in *. split_and!; try done.
  - intros i a Hi [k Hk] Hearlier. apply (Hfirst i a k); try done.
    intros j b Hj Hb. rewrite <-Hk. by apply (Hearlier j b).
  - intros a Ha [k Hk]. destruct (Hcov a k Ha Hk) as [?|Hin]; [done|].
    destruct (kept_record_of _ _ _ Hks Hin) as (b & Hb & Hbk).
    apply list_elem_of_fmap. exists b. split; [congruence|done].
Qed.

(** X22 with the URLs [True] and [1]. *)
Lemma safe_articles_any_records_witness :
  NoDup (article_key <$> [art (PyBool true) (PyStr "t")]).
Proof.
  destruct (safe_articles_any_records
              [art (PyBool true) (PyStr "t"); art (PyInt 1) (PyStr "t")]
              [art (PyBool true) (PyStr "t")]) as (_ & _ & Hnd & _).
  - by vm_compute.
  - exact Hnd.
Defined.
